(** * Stratified over-sampling with categorical groups

    A shallow embedding of [sklearnext/over_sampling/base.py]: the helper
    [_generate_classes_stats] and the method
    [ExtendedBaseOverSampler._sample].

    Modelling conventions.
    - Python floats are modelled by exact rationals [Q], and the entries of
      [X] are finite numbers ([imblearn] checks the input with [check_X_y]
      before it calls [_sample]). The float [nan] that pandas uses for a
      missing entry of the weight table is [None] in an [option Q]. The
      arithmetic of the model is exact: the ratios, the weights and the
      products [n_samples * weight] are the numbers that the doubles of the
      code approximate, and a double can differ from them in the last place
      (a product that is a whole number here can be just below it in the
      code, which then truncates it one lower). The cast [.astype(int)] of
      the integer columns is a conversion to a signed 64-bit integer and is
      modelled as such.
    - Class labels are integers ([Z]); the cast that [np.column_stack] applies
      to them is exact, so the label column of the data frame is kept apart
      from the feature columns as a [Z].
    - A Python [dict] is an association list in insertion order.
    - [self] is a record that is threaded through the computation; an
      exception leaves the state as it was when it was raised.
    - The pandas and numpy calls are modelled by list functions that follow
      their behaviour on a frame of floats whose columns are labelled
      [0 .. m], in the pandas versions that have [DataFrame.append]. *)

From Stdlib Require Import ZArith QArith Qround Qabs List Bool Lia Lqa.
From Stdlib Require Import Permutation String DecimalString.
Import ListNotations.

Open Scope Z_scope.

(* ================================================================== *)
(** * Numbers *)

Definition Qltb (x y : Q) : bool := negb (Qle_bool y x).

(** Python's [int(x)] on a float: truncation towards zero. The argument is
    the exact value of the product that the code forms in double precision. *)
Definition py_int (x : Q) : Z :=
  if Qle_bool 0 x then Qfloor x else Qceiling x.

(** [np.round]: rounding to the nearest integer, ties to the even one. The
    result of [np.round] is still a float; the cast that follows it on line
    185 is [astype_int]. *)
Definition np_round (x : Q) : Z :=
  let f := Qfloor x in
  let d := (x - inject_Z f)%Q in
  if Qltb d (1 # 2) then f
  else if Qltb (1 # 2) d then f + 1
  else if Z.even f then f else f + 1.

Definition int64_min : Z := - 2 ^ 63.

Definition int64_max : Z := 2 ^ 63 - 1.

(** [.astype(int)] on an integer-valued float: the conversion to a signed
    64-bit integer. A value that does not fit is converted to the smallest
    [int64], as the conversion instruction of x86-64 does. *)
Definition astype_int (z : Z) : Z :=
  if Z.leb int64_min z && Z.leb z int64_max then z else int64_min.

(* ================================================================== *)
(** * Dictionaries and counters *)

(** Class labels are integers. *)
Abbreviation label := Z (only parsing).

Fixpoint dict_get {V : Type} (d : list (label * V)) (k : label) : option V :=
  match d with
  | [] => None
  | (k', v) :: d' => if Z.eqb k' k then Some v else dict_get d' k
  end.

(** [Counter.__iadd__] for one element: bump the entry, or append a new one. *)
Fixpoint counter_add (l : label) (c : list (label * Z)) : list (label * Z) :=
  match c with
  | [] => [(l, 1)]
  | (k, n) :: c' =>
      if Z.eqb k l then (k, n + 1) :: c' else (k, n) :: counter_add l c'
  end.

Definition Counter (y : list label) : list (label * Z) :=
  fold_left (fun c l => counter_add l c) y [].

(** [counter[label]]: a missing key counts zero. *)
Definition counter_get (c : list (label * Z)) (l : label) : Z :=
  match dict_get c l with Some n => n | None => 0 end.

(** Number of occurrences of a label, as the specification counts them. *)
Definition n_occ (l : label) (y : list label) : Z :=
  Z.of_nat (count_occ Z.eq_dec y l).

(* ================================================================== *)
(** * [_generate_classes_stats] *)

Definition classes_stats_of (counter : list (label * Z)) (majority_label : label)
  : list (label * (Q * Z)) :=
  map (fun ln => (fst ln,
                  ((inject_Z (counter_get counter majority_label)
                    / inject_Z (snd ln))%Q, snd ln)))
      (filter (fun ln => negb (Z.eqb (fst ln) majority_label)) counter).

Definition include_test (imbalance_ratio_threshold : Q) (k_neighbors : option Z)
  (st : label * (Q * Z)) : bool :=
  let ir := fst (snd st) in
  let n_samples := snd (snd st) in
  match k_neighbors with
  | Some k => Qltb ir imbalance_ratio_threshold && Z.ltb k n_samples
  | None => Qltb ir imbalance_ratio_threshold
  end.

Definition modified_ratios_of (counter : list (label * Z)) (majority_label : label)
  : list (label * Q) :=
  map (fun ln => (fst ln,
                  (inject_Z (counter_get counter majority_label + 1)
                   / inject_Z (snd ln + 1))%Q))
      (filter (fun ln => negb (Z.eqb (fst ln) majority_label)) counter).

Definition _generate_classes_stats (y : list label) (majority_label : label)
  (imbalance_ratio_threshold : Q) (k_neighbors : option Z)
  : bool * list (label * Q) :=
  let counter := Counter y in
  let stats := classes_stats_of counter majority_label in
  let include_group :=
    existsb (include_test imbalance_ratio_threshold k_neighbors) stats in
  let modified_imbalance_ratios := modified_ratios_of counter majority_label in
  (include_group, modified_imbalance_ratios).

(* ================================================================== *)
(** * Exceptions, arrays and the sampler object *)

Inductive exn : Type :=
| ValueError (msg : string)
| TypeError (msg : string)
| IndexError (msg : string)
| KeyError (key : label)
| StrategyError (msg : string).

Inductive outcome (A : Type) : Type :=
| Return (a : A)
| Raise (e : exn).
Arguments Return {A} a.
Arguments Raise {A} e.

Definition try_except {A : Type} (body handler : outcome A) : outcome A :=
  match body with
  | Return a => Return a
  | Raise _ => handler
  end.

Definition obind {A B : Type} (o : outcome A) (k : A -> outcome B) : outcome B :=
  match o with
  | Return a => k a
  | Raise e => Raise e
  end.

(** [sklearn.utils.check_random_state]. *)
Inductive RandomState : Type :=
| np_random_singleton
| RandomState_seeded (seed : Z).

Definition check_random_state (seed : option Z) : RandomState :=
  match seed with
  | None => np_random_singleton
  | Some z => RandomState_seeded z
  end.

(** A two-dimensional float array: [X.shape[1]] and the rows. *)
Record ndarray : Type := mk_ndarray {
  shape1 : nat;
  values : list (list Q)
}.

Record ExtendedBaseOverSampler : Type := mk_sampler {
  random_state : option Z;
  integer_cols : option (list Z);
  categorical_cols : option (list Z);
  imbalance_ratio_threshold : Q;
  (** [hasattr(self, 'k_neighbors')]: only some derived classes define it. *)
  k_neighbors : option Z;
  ratio_ : list (label * Z);
  random_state_ : option RandomState;
  n_overasmpled_groups_ : option nat
}.

Definition set_random_state_ (r : RandomState) (self : ExtendedBaseOverSampler) :=
  mk_sampler (random_state self) (integer_cols self) (categorical_cols self)
    (imbalance_ratio_threshold self) (k_neighbors self) (ratio_ self)
    (Some r) (n_overasmpled_groups_ self).

Definition set_ratio_ (r : list (label * Z)) (self : ExtendedBaseOverSampler) :=
  mk_sampler (random_state self) (integer_cols self) (categorical_cols self)
    (imbalance_ratio_threshold self) (k_neighbors self) r
    (random_state_ self) (n_overasmpled_groups_ self).

Definition set_n_overasmpled_groups_ (n : nat) (self : ExtendedBaseOverSampler) :=
  mk_sampler (random_state self) (integer_cols self) (categorical_cols self)
    (imbalance_ratio_threshold self) (k_neighbors self) (ratio_ self)
    (random_state_ self) (Some n).

(** [self.random_state_ = check_random_state(self.random_state)] *)
Definition seed_random_state (self : ExtendedBaseOverSampler) :=
  set_random_state_ (check_random_state (random_state self)) self.

(** Computations on [self] that may raise. *)
Definition M (A : Type) : Type :=
  ExtendedBaseOverSampler -> outcome A * ExtendedBaseOverSampler.

Definition ret {A : Type} (a : A) : M A := fun self => (Return a, self).

Definition raise {A : Type} (e : exn) : M A := fun self => (Raise e, self).

Definition bind {A B : Type} (c : M A) (k : A -> M B) : M B :=
  fun self =>
    match c self with
    | (Return a, self') => k a self'
    | (Raise e, self') => (Raise e, self')
    end.

Definition lift {A : Type} (o : outcome A) : M A := fun self => (o, self).

Definition get_self : M ExtendedBaseOverSampler := fun self => (Return self, self).

Definition modify (f : ExtendedBaseOverSampler -> ExtendedBaseOverSampler) : M unit :=
  fun self => (Return tt, f self).

Declare Scope sampler_scope.
Delimit Scope sampler_scope with sampler.
Notation "x <- c ;; k" := (bind c (fun x => k))
  (at level 61, c at next level, right associativity) : sampler_scope.
Notation "c ;;; k" := (bind c (fun _ => k))
  (at level 61, right associativity) : sampler_scope.

(* ================================================================== *)
(** * Validation of the column parameters *)

Definition repr_nat (n : nat) : string :=
  DecimalString.NilZero.string_of_uint (Nat.to_uint n).

Definition repr_Z (z : Z) : string :=
  DecimalString.NilZero.string_of_int (Z.to_int z).

Definition repr_list (l : list Z) : string :=
  ("[" ++ String.concat ", " (map repr_Z l) ++ "]")%string.

Definition repr_range (max_col_index : nat) : string :=
  ("[0, " ++ repr_nat max_col_index ++ "]")%string.

(** [set(range(max_col_index)).issuperset(cols)] *)
Definition range_issuperset (max_col_index : nat) (cols : list Z) : bool :=
  forallb (fun c => Z.leb 0 c && Z.ltb c (Z.of_nat max_col_index)) cols.

(** [set(a).isdisjoint(b)] *)
Definition isdisjoint (a b : list Z) : bool :=
  negb (existsb (fun c => existsb (Z.eqb c) b) a).

(** The [try: ... except: raise ValueError(...)] block around one parameter.
    [len(None)] raises a [TypeError]; the bare [except] turns every exception
    of the body, its own [ValueError] included, into the outer one. *)
Definition check_cols (name kind : string) (cols : option (list Z))
  (max_col_index : nat) : outcome (list Z) :=
  try_except
    (match cols with
     | None => Raise (TypeError "object of type 'NoneType' has no len()")
     | Some l =>
         if Nat.eqb (List.length l) 0 || negb (range_issuperset max_col_index l)
         then Raise (ValueError
                       ("Selected " ++ kind ++ " columns should be in the "
                        ++ repr_range max_col_index ++ " range. Got "
                        ++ repr_list l ++ " instead."))
         else Return l
     end)
    (Raise (ValueError
              ("Parameter `" ++ name ++ "` should be a list or tuple in the "
               ++ repr_range max_col_index ++ " range."))).

(* ================================================================== *)
(** * The data frame and the pandas operations used by [_sample] *)

(** A row of [df = pd.DataFrame(np.column_stack((X, y)))]: the feature
    columns [0 .. m-1] and the label column [m]. *)
Definition row : Type := (list Q * label)%type.

Definition column_stack (X : ndarray) (y : list label) : outcome (list row) :=
  if Nat.eqb (List.length (values X)) (List.length y)
  then Return (combine (values X) y)
  else Raise (ValueError
                "all the input array dimensions except for the concatenation axis must match exactly").

(** The tuple of categorical values of a row. *)
Definition key : Type := list Q.

Definition key_of (cols : list nat) (r : row) : key :=
  map (fun c => nth c (fst r) 0%Q) cols.

Fixpoint key_eqb (a b : key) : bool :=
  match a, b with
  | [], [] => true
  | x :: a', y :: b' => Qeq_bool x y && key_eqb a' b'
  | _, _ => false
  end.

Fixpoint key_ltb (a b : key) : bool :=
  match a, b with
  | [], [] => false
  | [], _ :: _ => true
  | _ :: _, [] => false
  | x :: a', y :: b' => Qltb x y || (Qeq_bool x y && key_ltb a' b')
  end.

Fixpoint insert_key (k : key) (ks : list key) : list key :=
  match ks with
  | [] => [k]
  | k' :: ks' => if key_ltb k k' then k :: ks else k' :: insert_key k ks'
  end.

Definition add_key (ks : list key) (k : key) : list key :=
  if existsb (key_eqb k) ks then ks else insert_key k ks.

(** The group keys of [df.groupby(cols)]: the distinct key tuples, sorted. *)
Definition group_keys (cols : list nat) (df : list row) : list key :=
  fold_left add_key (map (key_of cols) df) [].

(** The rows of [df], in their order, whose key is one of [keys]. *)
Definition rows_with_keys (cols : list nat) (df : list row) (keys : list key)
  : list row :=
  filter (fun r => existsb (key_eqb (key_of cols r)) keys) df.

Definition push_key (ks : list key) (k : key) : list key :=
  if existsb (key_eqb k) ks then ks else ks ++ [k].

(** The distinct keys of [df], in the order in which they first appear. *)
Definition first_keys (cols : list nat) (df : list row) : list key :=
  fold_left push_key (map (key_of cols) df) [].

(** [pd.merge(df, keys)]: inner join on the categorical columns. The join
    numbers the keys of [df] in the order in which they first appear and
    returns the matching rows key by key: the rows of one key stay in their
    order, the rows of different keys do not. For a single key these are the
    rows of [df] with that key, in their order. *)
Definition merge (cols : list nat) (df : list row) (keys : list key) : list row :=
  List.concat
    (map (fun k => rows_with_keys cols df [k])
         (filter (fun k => existsb (key_eqb k) keys) (first_keys cols df))).

(** [df.groupby(cols)]: one group for every key, in the order of the sorted
    keys; a group holds the rows with its key, in the order of the frame. *)
Definition groupby (cols : list nat) (df : list row) : list (key * list row) :=
  map (fun k => (k, merge cols df [k])) (group_keys cols df).

(** [df.groupby(cols, as_index=False).agg({label column: stats})] *)
Definition classes_stats_frame (cols : list nat) (df : list row)
  (majority_label : label) (imbalance_ratio_threshold : Q)
  (k_neighbors : option Z) : list (key * (bool * list (label * Q))) :=
  map (fun kg => (fst kg,
                  _generate_classes_stats (map snd (snd kg)) majority_label
                    imbalance_ratio_threshold k_neighbors))
      (groupby cols df).

Definition boolean_mask (stat : key * (bool * list (label * Q))) : bool :=
  fst (snd stat).

(** [classes_stats[boolean_mask].iloc[:, :-1]] *)
Definition included_groups_of (classes_stats : list (key * (bool * list (label * Q))))
  : list key :=
  map fst (filter boolean_mask classes_stats).

(** [classes_stats[~boolean_mask].iloc[:, :-1]] *)
Definition excluded_groups_of (classes_stats : list (key * (bool * list (label * Q))))
  : list key :=
  map fst (filter (fun st => negb (boolean_mask st)) classes_stats).

(** [classes_stats[boolean_mask].iloc[:, -1].apply(lambda stat: stat[1])] *)
Definition imbalance_ratios_of (classes_stats : list (key * (bool * list (label * Q))))
  : list (list (label * Q)) :=
  map (fun st => snd (snd st)) (filter boolean_mask classes_stats).

(** [Series.sum()]: missing entries are skipped, the empty sum is 0. *)
Definition nansum (col : list (option Q)) : Q :=
  fold_right (fun o acc => match o with Some w => (w + acc)%Q | None => acc end)
             0%Q col.

(** One column of the weight table: the modified ratio of the label in every
    included group ([nan] where the group has no such label), normalised. The
    quotients are exact; the code has the doubles nearest to them. *)
Definition label_weights (imbalance_ratios : list (list (label * Q))) (l : label)
  : list (option Q) :=
  let col := map (fun ratio => dict_get ratio l) imbalance_ratios in
  map (option_map (fun w => (w / nansum col)%Q)) col.

Definition weights_frame (minority_labels : list label)
  (imbalance_ratios : list (list (label * Q))) : list (label * list (option Q)) :=
  map (fun l => (l, label_weights imbalance_ratios l)) minority_labels.

(** [weights.iterrows()]: one labelled row per included group; a frame without
    columns has no rows. *)
Definition iterrows (n_rows : nat) (weights : list (label * list (option Q)))
  : list (list (label * option Q)) :=
  match weights with
  | [] => []
  | _ => map (fun i => map (fun lc => (fst lc, nth i (snd lc) None)) weights)
             (seq 0 n_rows)
  end.

(** [majority_label = [label for label, n in ratio_.items() if n == 0][0]] *)
Definition majority_label_of (ratio : list (label * Z)) : outcome label :=
  match filter (fun ln => Z.eqb (snd ln) 0) ratio with
  | [] => Raise (IndexError "list index out of range")
  | ln :: _ => Return (fst ln)
  end.

Definition minority_labels_of (ratio : list (label * Z)) (majority_label : label)
  : list label :=
  filter (fun l => negb (Z.eqb l majority_label)) (map fst ratio).

(** The dictionary comprehension that defines the ratio of a group.
    [weight[label]] is a [KeyError] for a label without a column, and
    [int(n_samples * nan)] is a [ValueError]. *)
Fixpoint group_ratio (initial_ratio : list (label * Z)) (majority_label : label)
  (weight : list (label * option Q)) : outcome (list (label * Z)) :=
  match initial_ratio with
  | [] => Return []
  | (l, n_samples) :: rest =>
      obind (if negb (Z.eqb l majority_label)
             then match dict_get weight l with
                  | None => Raise (KeyError l)
                  | Some None =>
                      Raise (ValueError "cannot convert float NaN to integer")
                  | Some (Some w) => Return (py_int (inject_Z n_samples * w))
                  end
             else Return n_samples)
        (fun v => obind (group_ratio rest majority_label weight)
                    (fun rest' => Return ((l, v) :: rest')))
  end.

Definition is_col (cols : list nat) (c : nat) : bool := existsb (Nat.eqb c) cols.

(** [.drop(columns=cols)] on one row of features. *)
Definition drop_columns (cols : list nat) (r : list Q) : list Q :=
  map snd (filter (fun ix => negb (is_col cols (fst ix)))
                  (combine (seq 0 (List.length r)) r)).

(** [list(X_group.columns)]: the labels of the columns that are left. *)
Definition numeric_columns (m : nat) (cols : list nat) : list nat :=
  filter (fun c => negb (is_col cols c)) (seq 0 m).

Fixpoint index_of (c : nat) (labels : list nat) : nat :=
  match labels with
  | [] => 0
  | c' :: labels' => if Nat.eqb c' c then 0%nat else S (index_of c labels')
  end.

(** A resampled row with the group's categorical values stacked behind it,
    labelled [numeric columns + cols], then read in the order [0 .. m-1]
    ([.loc[:, X_resampled.columns]]). *)
Definition reattach (m : nat) (cols : list nat) (group_values : key)
  (x : list Q) : list Q :=
  let columns := numeric_columns m cols ++ cols in
  map (fun c => nth (index_of c columns) (x ++ group_values) 0%Q) (seq 0 m).

(** [X[:, integer_cols] = np.round(X[:, integer_cols]).astype(int)] on a row. *)
Definition round_row (integer_cols : list nat) (r : list Q) : list Q :=
  map (fun ix => if is_col integer_cols (fst ix)
                 then inject_Z (astype_int (np_round (snd ix))) else snd ix)
      (combine (seq 0 (List.length r)) r).

(** The first column of [l] that is already in [seen]. *)
Fixpoint first_repeated (seen l : list nat) : option nat :=
  match l with
  | [] => None
  | c :: l' => if is_col seen c then Some c else first_repeated (c :: seen) l'
  end.

(** The grouping column that [groupby(cols, as_index=False)] cannot put back
    into the frame because a column of that name is already there: the keys
    are inserted from the last to the first. *)
Definition repeated_column (cols : list nat) : option nat :=
  first_repeated [] (rev cols).

(* ================================================================== *)
(** * [ExtendedBaseOverSampler._sample] *)

Section Sample.

Open Scope sampler_scope.

(** The abstract method: the numerical over-sampling strategy of a derived
    class. It reads [self] (in particular [ratio_]), may update it and may
    raise. The column parameters are read once, after their validation: a
    strategy is taken to leave [integer_cols] and [categorical_cols] alone. *)
Variable _partial_sample : ndarray -> list label -> M (ndarray * list label).

(** The body of the loop over the included groups and their weights. The two
    [ValueError]s after the call are numpy's, for [reshape(0, -1)] of an empty
    array, and pandas', for a frame with the wrong number of columns (their
    messages are abridged). *)
Fixpoint oversample_groups (m : nat) (cols : list nat) (df : list row)
  (initial_ratio : list (label * Z)) (majority_label : label)
  (groups : list (key * list (label * option Q)))
  (resampled : list (list Q) * list label) {struct groups}
  : M (list (list Q) * list label) :=
  match groups with
  | [] => ret resampled
  | (group_values, weight) :: rest =>
      (* Define ratio in group *)
      ratio <- lift (group_ratio initial_ratio majority_label weight) ;;
      modify (set_ratio_ ratio) ;;;
      (* Select data in group *)
      let df_group := merge cols df [group_values] in
      let X_group :=
        mk_ndarray (List.length (numeric_columns m cols))
                   (map (fun r => drop_columns cols (fst r)) df_group) in
      let y_group := map snd df_group in
      (* Oversample data *)
      res <- _partial_sample X_group y_group ;;
      let X_group_resampled := fst res in
      let y_group_resampled := snd res in
      if Nat.eqb (List.length (values X_group_resampled)) 0
      then raise (ValueError "cannot reshape array of size 0 into shape (0,newaxis)")
      else if negb (Nat.eqb (shape1 X_group_resampled)
                            (List.length (numeric_columns m cols)))
      then raise (ValueError "Shape of passed values does not match the columns")
      else
        (* Append resampled data *)
        oversample_groups m cols df initial_ratio majority_label rest
          (fst resampled
             ++ map (reattach m cols group_values) (values X_group_resampled),
           snd resampled ++ y_group_resampled)
  end.

(** Lines 120-182: everything between the validation and the rounding of
    the integer columns. Two failures of pandas on the way are part of it: a
    repeated grouping column (line 125) and a frame without rows (line 140). *)
Definition resample_groups (cols : list nat) (X : ndarray) (y : list label)
  : M (list (list Q) * list label) :=
  self <- get_self ;;
  df <- lift (column_stack X y) ;;
  (* Select groups to oversample *)
  majority_label <- lift (majority_label_of (ratio_ self)) ;;
  let minority_labels := minority_labels_of (ratio_ self) majority_label in
  match repeated_column cols with
  | Some c =>
      (* groupby: a column named twice among the keys *)
      raise (ValueError ("cannot insert " ++ repr_nat c ++ ", already exists"))
  | None =>
  let classes_stats :=
    classes_stats_frame cols df majority_label
      (imbalance_ratio_threshold self) (k_neighbors self) in
  let included_groups := included_groups_of classes_stats in
  modify (set_n_overasmpled_groups_ (List.length included_groups)) ;;;
  (* Calculate oversampling weights: on a frame without rows the mask is not
     boolean, [classes_stats[boolean_mask]] has no column and [.iloc[:, -1]]
     is out of bounds *)
  if Nat.eqb (List.length df) 0
  then raise (IndexError "single positional indexer is out-of-bounds")
  else
  let imbalance_ratios := imbalance_ratios_of classes_stats in
  let weights := weights_frame minority_labels imbalance_ratios in
  let initial_ratio := ratio_ self in
  (* Oversample data in each group *)
  resampled <-
    oversample_groups (shape1 X) cols df initial_ratio majority_label
      (combine included_groups (iterrows (List.length imbalance_ratios) weights))
      ([], []) ;;
  (* Restore ratio *)
  modify (set_ratio_ initial_ratio) ;;;
  (* Append excluded data *)
  let excluded_groups := excluded_groups_of classes_stats in
  let df_excluded := merge cols df excluded_groups in
  ret (fst resampled ++ map fst df_excluded,
       snd resampled ++ map snd df_excluded)
  end.

(** Lines 98-118: the checks made when [categorical_cols] is set. They
    return the two validated column lists. *)
Definition validate (self : ExtendedBaseOverSampler) (max_col_index : nat)
  : outcome (list Z * list Z) :=
  obind (check_cols "integer_cols" "integer" (integer_cols self) max_col_index)
    (fun ic =>
  obind (check_cols "categorical_cols" "categorical" (categorical_cols self)
           max_col_index)
    (fun cc =>
  if negb (isdisjoint ic cc)
  then Raise (ValueError
                "Parameters `integer_cols` and `categorical_cols` should not have common elements.")
  else if Qle_bool (imbalance_ratio_threshold self) 0
  then Raise (ValueError
                "Parameter `categorical_threshold` should be a positive number.")
  else Return (ic, cc))).

Definition _sample (X : ndarray) (y : list label) : M (ndarray * list label) :=
  modify seed_random_state ;;;
  self <- get_self ;;
  match categorical_cols self with
  | None => _partial_sample X y
  | Some _ =>
      let max_col_index := shape1 X in
      cols <- lift (validate self max_col_index) ;;
      let integer_cols := map Z.to_nat (fst cols) in
      let categorical_cols := map Z.to_nat (snd cols) in
      resampled <- resample_groups categorical_cols X y ;;
      (* Integer columns *)
      ret (mk_ndarray max_col_index
             (map (round_row integer_cols) (fst resampled)),
           snd resampled)
  end.

End Sample.

(* ================================================================== *)
(** * Vocabulary of the statements *)

(** The labels of the rows of a group. *)
Definition group_labels (kg : key * list row) : list label := map snd (snd kg).

(** The inclusion decision of a group, as [classes_stats] records it. *)
Definition group_included (majority_label : label) (imbalance_ratio_threshold : Q)
  (k_neighbors : option Z) (kg : key * list row) : bool :=
  fst (_generate_classes_stats (group_labels kg) majority_label
         imbalance_ratio_threshold k_neighbors).

(** The modified imbalance ratio [(majority_count + 1) / (label_count + 1)]. *)
Definition modified_ratio (majority_label l : label) (y : list label) : Q :=
  (inject_Z (n_occ majority_label y + 1) / inject_Z (n_occ l y + 1))%Q.

(** The sum of a list of numbers. *)
Definition Qsum (l : list Q) : Q := fold_right Qplus 0%Q l.

(** The entries of a column of the weight table that are not [nan]. *)
Definition defined_weights (col : list (option Q)) : list Q :=
  flat_map (fun o => match o with Some w => [w] | None => [] end) col.

(** The total of the modified ratios of the label [l] over the groups that
    have a sample of it. *)
Definition total_modified_ratio (majority_label l : label)
  (groups : list (key * list row)) : Q :=
  Qsum (map (fun kg => modified_ratio majority_label l (group_labels kg))
            (filter (fun kg => existsb (Z.eqb l) (group_labels kg)) groups)).

(** The categorical values of a feature row. *)
Definition row_key (cols : list nat) (x : list Q) : key :=
  map (fun c => nth c x 0%Q) cols.

(** Two feature rows have the same value in every categorical column. *)
Definition same_categorical_values (cols : list nat) (x x' : list Q) : Prop :=
  forall c, In c cols -> (nth c x 0 == nth c x' 0)%Q.

(** No two keys of the list are equal. *)
Fixpoint distinct_keys (ks : list key) : bool :=
  match ks with
  | [] => true
  | k :: ks' => negb (existsb (key_eqb k) ks') && distinct_keys ks'
  end.

(** The pairs [(group_values, weight)] that the loop of [_sample] runs over:
    [zip(included_groups.values.tolist(), weights.iterrows())]. *)
Definition group_weights (cols : list nat) (df : list row)
  (ratio : list (label * Z)) (majority_label : label)
  (imbalance_ratio_threshold : Q) (k_neighbors : option Z)
  : list (key * list (label * option Q)) :=
  let classes_stats :=
    classes_stats_frame cols df majority_label imbalance_ratio_threshold
      k_neighbors in
  let imbalance_ratios := imbalance_ratios_of classes_stats in
  combine (included_groups_of classes_stats)
          (iterrows (List.length imbalance_ratios)
             (weights_frame (minority_labels_of ratio majority_label)
                imbalance_ratios)).

(** The rows of the excluded groups: [df_excluded]. *)
Definition df_excluded_of (cols : list nat) (df : list row)
  (majority_label : label) (imbalance_ratio_threshold : Q)
  (k_neighbors : option Z) : list row :=
  merge cols df
    (excluded_groups_of
       (classes_stats_frame cols df majority_label imbalance_ratio_threshold
          k_neighbors)).


(** The integer [z] can be held by a signed 64-bit integer. *)
Definition fits_int64 (z : Z) : Prop := - 2 ^ 63 <= z < 2 ^ 63.







(* ================================================================== *)
(** * Worked examples *)

(** A strategy that returns its input. *)
Definition identity_strategy : ndarray -> list label -> M (ndarray * list label) :=
  fun X y self => (Return (X, y), self).

(** A strategy that, like a nearest-neighbour method, refuses a data set with
    fewer than [n] rows and otherwise returns its input. *)
Definition minimum_size_strategy (n : nat)
  : ndarray -> list label -> M (ndarray * list label) :=
  fun X y self =>
    if Nat.ltb (List.length (values X)) n
    then (Raise (StrategyError "Expected n_neighbors <= n_samples"), self)
    else (Return (X, y), self).

(** Two columns: column 0 is an integer column, column 1 is categorical.
    The group with value 0 has labels 0,0,1,1,1 (imbalance ratio 2/3) and the
    group with value 1 has labels 0,0,0,1 (imbalance ratio 3). *)
Definition X_mixed : ndarray :=
  mk_ndarray 2
    [[1 # 2; 0]; [3 # 2; 0]; [5 # 2; 0]; [7; 0]; [2; 0];
     [1; 1]; [2; 1]; [3; 1]; [9 # 2; 1]]%Q.

Definition y_mixed : list label := [0; 0; 1; 1; 1; 0; 0; 0; 1].


Definition sampler_two_classes : ExtendedBaseOverSampler :=
  mk_sampler None (Some [0]) (Some [1]) 1%Q None [(0, 0); (1, 1)] None None.

(** Three classes: the group with value 0 has labels 0,0,1,1,1 and is
    included, the group with value 1 has labels 0,0,0,2 and is excluded, so
    class 2 has no sample in the only included group. The ratio is the one
    that balances the classes: 2 more samples of class 1, 4 more of class 2. *)
Definition y_three_classes : list label := [0; 0; 1; 1; 1; 0; 0; 0; 2].

Definition sampler_three_classes : ExtendedBaseOverSampler :=
  mk_sampler None (Some [0]) (Some [1]) 1%Q None [(0, 0); (1, 2); (2, 4)]
    None None.

(** Both groups are included at threshold 5: labels 0,0,0,1 (modified ratio
    2) and 0,0,0,0,1,1 (modified ratio 5/3); 4 more samples of class 1 balance
    the classes. *)
Definition X_both_included : ndarray :=
  mk_ndarray 2
    [[1; 0]; [2; 0]; [3; 0]; [4; 0];
     [5; 1]; [6; 1]; [7; 1]; [8; 1]; [9; 1]; [10; 1]]%Q.

Definition y_both_included : list label := [0; 0; 0; 1; 0; 0; 0; 0; 1; 1].

Definition sampler_both_included : ExtendedBaseOverSampler :=
  mk_sampler None (Some [0]) (Some [1]) 5%Q None [(0, 0); (1, 4)] None None.

(** No categorical columns, and parameters that the grouped path rejects. *)
Definition sampler_unchecked : ExtendedBaseOverSampler :=
  mk_sampler (Some 42) (Some [5; -1]) None (-1)%Q None [(0, 0); (1, 4)]
    None None.

(** Integer and categorical columns overlap. *)
Definition sampler_overlap : ExtendedBaseOverSampler :=
  mk_sampler None (Some [0; 1]) (Some [1]) 1%Q None [(0, 0); (1, 4)] None None.


(** What [_sample] returns on [X_mixed], [y_mixed] with the identity strategy:
    the integer column is rounded in every row, excluded rows included. *)
Definition X_mixed_resampled : ndarray :=
  mk_ndarray 2
    [[0; 0]; [2; 0]; [2; 0]; [7; 0]; [2; 0];
     [1; 1]; [2; 1]; [3; 1]; [4; 1]]%Q.

Definition sampler_two_classes_after : ExtendedBaseOverSampler :=
  mk_sampler None (Some [0]) (Some [1]) 1%Q None [(0, 0); (1, 1)]
    (Some np_random_singleton) (Some 1%nat).

(* ================================================================== *)
(** * Vocabulary of the further properties *)

(** A column parameter that the checks accept: a non-empty list of indices
    of [range(max_col_index)]. *)
Definition good_cols (max_col_index : nat) (cols : option (list Z)) : Prop :=
  exists l, cols = Some l /\ l <> [] /\
            forall c, In c l -> 0 <= c < Z.of_nat max_col_index.

(** A column parameter that the checks reject: [None], an empty list, or a
    list with an index outside [range(max_col_index)]. *)
Definition bad_cols (max_col_index : nat) (cols : option (list Z)) : Prop :=
  match cols with
  | None => True
  | Some l => l = [] \/ exists c, In c l /\ ~ (0 <= c < Z.of_nat max_col_index)
  end.

(** The message of the [ValueError] raised for a rejected column parameter. *)
Definition cols_message (name : string) (max_col_index : nat) : string :=
  ("Parameter `" ++ name ++ "` should be a list or tuple in the "
   ++ repr_range max_col_index ++ " range.")%string.


(** A proper two-dimensional array: every row has [shape[1]] entries. *)
Definition proper_array (X : ndarray) : Prop :=
  Forall (fun x => List.length x = shape1 X) (values X).

(** A strategy that returns a proper array whenever it is given one. *)
Definition returns_arrays
  (strategy : ndarray -> list label -> M (ndarray * list label)) : Prop :=
  forall X y self res self',
    proper_array X ->
    strategy X y self = (Return res, self') ->
    proper_array (fst res).


(** A threshold so low that no group of [X_mixed], [y_mixed] is included. *)
Definition sampler_strict : ExtendedBaseOverSampler :=
  mk_sampler None (Some [0]) (Some [1]) (1 # 2)%Q None [(0, 0); (1, 1)] None None.

(** A ratio without a label that needs no new sample. *)
Definition sampler_no_majority : ExtendedBaseOverSampler :=
  mk_sampler None (Some [0]) (Some [1]) 1%Q None [(0, 2); (1, 1)] None None.


(** A strategy that, given as many labels as rows, returns as many labels as
    rows. *)
Definition returns_aligned
  (strategy : ndarray -> list label -> M (ndarray * list label)) : Prop :=
  forall X y self res self',
    List.length (values X) = List.length y ->
    strategy X y self = (Return res, self') ->
    List.length (values (fst res)) = List.length (snd res).

(* ================================================================== *)
(** * Facts about the numeric helpers *)

Lemma Qltb_iff (x y : Q) : Qltb x y = true <-> (x < y)%Q.
Proof.
  unfold Qltb. rewrite negb_true_iff. split; intro H.
  - apply Qnot_le_lt. intro Hle. apply Qle_bool_iff in Hle. congruence.
  - destruct (Qle_bool y x) eqn:E; [|reflexivity].
    apply Qle_bool_iff in E. exfalso. exact (Qlt_not_le _ _ H E).
Qed.


(* ================================================================== *)
(** * Facts about [Counter] *)

Lemma dict_get_counter_add (x : label) (c : list (label * Z)) (l : label) :
  dict_get (counter_add x c) l =
  if Z.eqb l x then Some (counter_get c x + 1) else dict_get c l.
Proof.
  unfold counter_get. induction c as [|[k n] c IH]; simpl.
  - destruct (Z.eqb_spec x l), (Z.eqb_spec l x); congruence.
  - destruct (Z.eqb_spec k x); simpl.
    + destruct (Z.eqb_spec k l), (Z.eqb_spec l x); congruence.
    + rewrite IH.
      destruct (Z.eqb_spec k l), (Z.eqb_spec l x); congruence.
Qed.

Lemma Counter_snoc (y : list label) (x : label) :
  Counter (y ++ [x]) = counter_add x (Counter y).
Proof. unfold Counter. rewrite fold_left_app. reflexivity. Qed.

Lemma n_occ_snoc (l x : label) (y : list label) :
  n_occ l (y ++ [x]) = if Z.eqb l x then n_occ l y + 1 else n_occ l y.
Proof.
  unfold n_occ. rewrite count_occ_app, Nat2Z.inj_add. cbn [count_occ].
  destruct (Z.eq_dec x l) as [Heq|Hne], (Z.eqb_spec l x); try congruence.
  - reflexivity.
  - lia.
Qed.

Lemma n_occ_pos_iff (l : label) (y : list label) : 0 < n_occ l y <-> In l y.
Proof.
  unfold n_occ. rewrite (count_occ_In Z.eq_dec). lia.
Qed.

Lemma n_occ_nonneg (l : label) (y : list label) : 0 <= n_occ l y.
Proof. unfold n_occ. lia. Qed.

Lemma dict_get_Counter (y : list label) (l : label) :
  dict_get (Counter y) l =
  if Z.ltb 0 (n_occ l y) then Some (n_occ l y) else None.
Proof.
  induction y as [|x y IH] using rev_ind.
  - reflexivity.
  - rewrite Counter_snoc, dict_get_counter_add, n_occ_snoc.
    destruct (Z.eqb l x) eqn:E.
    + apply Z.eqb_eq in E. subst x. unfold counter_get. rewrite IH.
      pose proof (n_occ_nonneg l y).
      destruct (Z.ltb 0 (n_occ l y)) eqn:E1;
        destruct (Z.ltb 0 (n_occ l y + 1)) eqn:E2;
        try apply Z.ltb_lt in E1; try apply Z.ltb_ge in E1;
        try apply Z.ltb_lt in E2; try apply Z.ltb_ge in E2;
        try lia; try reflexivity.
      f_equal. lia.
    + exact IH.
Qed.

Lemma counter_get_Counter (y : list label) (l : label) :
  counter_get (Counter y) l = n_occ l y.
Proof.
  unfold counter_get. rewrite dict_get_Counter.
  pose proof (n_occ_nonneg l y).
  destruct (Z.ltb 0 (n_occ l y)) eqn:E; [reflexivity|].
  apply Z.ltb_ge in E. lia.
Qed.

Lemma counter_add_keys (x : label) (c : list (label * Z)) :
  map fst (counter_add x c) =
  if existsb (Z.eqb x) (map fst c) then map fst c else map fst c ++ [x].
Proof.
  induction c as [|[k n] c IH]; simpl; [reflexivity|].
  rewrite (Z.eqb_sym x k).
  destruct (Z.eqb k x); simpl; [reflexivity|].
  rewrite IH. destruct (existsb (Z.eqb x) (map fst c)); reflexivity.
Qed.

Lemma Counter_NoDup (y : list label) : NoDup (map fst (Counter y)).
Proof.
  induction y as [|x y IH] using rev_ind.
  - constructor.
  - rewrite Counter_snoc, counter_add_keys.
    destruct (existsb (Z.eqb x) (map fst (Counter y))) eqn:E; [exact IH|].
    apply NoDup_app; [exact IH | repeat constructor; intros [] | ].
    intros a Ha [Hx|[]]. subst a.
    assert (existsb (Z.eqb x) (map fst (Counter y)) = true) as E'
      by (apply existsb_exists; exists x; split; [exact Ha | apply Z.eqb_refl]).
    congruence.
Qed.

Lemma dict_get_In {V : Type} (d : list (label * V)) (l : label) (v : V) :
  NoDup (map fst d) -> (In (l, v) d <-> dict_get d l = Some v).
Proof.
  induction d as [|[k w] d IH]; simpl; intros Hnd.
  - split; [intros [] | discriminate].
  - inversion Hnd as [|? ? Hk Hnd']; subst.
    destruct (Z.eqb k l) eqn:E.
    + apply Z.eqb_eq in E. subst k. split.
      * intros [Heq|Hin]; [congruence|].
        exfalso. apply Hk. apply (in_map fst) in Hin. exact Hin.
      * intros Heq. left. congruence.
    + apply Z.eqb_neq in E. rewrite <- (IH Hnd'). split.
      * intros [Heq|Hin]; [congruence | exact Hin].
      * intros Hin. right. exact Hin.
Qed.

Lemma In_Counter (y : list label) (l : label) (n : Z) :
  In (l, n) (Counter y) <-> In l y /\ n = n_occ l y.
Proof.
  rewrite (dict_get_In _ _ _ (Counter_NoDup y)), dict_get_Counter.
  rewrite <- n_occ_pos_iff.
  destruct (Z.ltb 0 (n_occ l y)) eqn:E.
  - apply Z.ltb_lt in E. split.
    + intros Heq. split; [exact E | congruence].
    + intros [_ ->]. reflexivity.
  - apply Z.ltb_ge in E. split; [discriminate | lia].
Qed.

(* ================================================================== *)
(** * [_generate_classes_stats]: the inclusion decision *)

Lemma In_classes_stats_of (y : list label) (majority_label : label)
  (st : label * (Q * Z)) :
  In st (classes_stats_of (Counter y) majority_label) <->
  fst st <> majority_label /\ In (fst st) y /\
  snd (snd st) = n_occ (fst st) y /\
  fst (snd st) =
    (inject_Z (n_occ majority_label y) / inject_Z (n_occ (fst st) y))%Q.
Proof.
  unfold classes_stats_of. rewrite in_map_iff. split.
  - intros [[l n] [<- Hin]]. apply filter_In in Hin. destruct Hin as [Hin Hne].
    apply In_Counter in Hin. destruct Hin as [Hin ->]. simpl in *.
    rewrite negb_true_iff in Hne. apply Z.eqb_neq in Hne.
    rewrite counter_get_Counter. repeat split; assumption.
  - destruct st as [l [ir n]]. simpl. intros (Hne & Hin & -> & ->).
    exists (l, n_occ l y). simpl. rewrite counter_get_Counter. split; [reflexivity|].
    apply filter_In. split.
    + apply In_Counter. split; [exact Hin | reflexivity].
    + simpl. rewrite negb_true_iff. apply Z.eqb_neq. exact Hne.
Qed.


(** One label below the threshold is enough: with labels 0,0,1,1,1,2 and
    majority label 0, label 1 has ratio 2/3 and label 2 has ratio 2. *)
Example include_group_one_label_suffices :
  _generate_classes_stats [0; 0; 1; 1; 1; 2] 0 1 None
  = (true, [(1, (3 # 4)%Q); (2, (3 # 2)%Q)]) /\
  existsb (include_test 1 None) (classes_stats_of (Counter [0; 0; 1; 1; 1; 2]) 0)
  = true /\
  forallb (include_test 1 None) (classes_stats_of (Counter [0; 0; 1; 1; 1; 2]) 0)
  = false.
Proof. repeat split. Qed.

(* ================================================================== *)
(** * The weight table *)

Lemma dict_get_map_filter {V W : Type} (p : label -> bool)
  (f : label * V -> W) (c : list (label * V)) (l : label) :
  dict_get (map (fun ln => (fst ln, f ln)) (filter (fun ln => p (fst ln)) c)) l =
  if p l then option_map (fun v => f (l, v)) (dict_get c l) else None.
Proof.
  induction c as [|[k v] c IH]; simpl.
  - destruct (p l); reflexivity.
  - destruct (p k) eqn:Epk; simpl.
    + destruct (Z.eqb_spec k l) as [->|Hne].
      * rewrite Epk. reflexivity.
      * exact IH.
    + rewrite IH. destruct (Z.eqb_spec k l) as [->|Hne]; [|reflexivity].
      rewrite Epk. reflexivity.
Qed.

Lemma dict_get_modified_ratios (y : list label) (majority_label l : label)
  (thr : Q) (k : option Z) :
  dict_get (snd (_generate_classes_stats y majority_label thr k)) l =
  if negb (Z.eqb l majority_label) && Z.ltb 0 (n_occ l y)
  then Some (modified_ratio majority_label l y) else None.
Proof.
  unfold _generate_classes_stats, modified_ratios_of. cbn [snd].
  rewrite (dict_get_map_filter (fun l => negb (Z.eqb l majority_label))
             (fun ln => (inject_Z (counter_get (Counter y) majority_label + 1)
                         / inject_Z (snd ln + 1))%Q)).
  rewrite dict_get_Counter, counter_get_Counter.
  destruct (negb (Z.eqb l majority_label)); [|reflexivity].
  destruct (Z.ltb 0 (n_occ l y)); reflexivity.
Qed.

Lemma modified_ratio_pos (majority_label l : label) (y : list label) :
  (0 < modified_ratio majority_label l y)%Q.
Proof.
  unfold modified_ratio.
  pose proof (n_occ_nonneg majority_label y). pose proof (n_occ_nonneg l y).
  apply Qlt_shift_div_l.
  - change 0%Q with (inject_Z 0). rewrite <- Zlt_Qlt. lia.
  - rewrite Qmult_0_l. change 0%Q with (inject_Z 0). rewrite <- Zlt_Qlt. lia.
Qed.

Lemma nansum_scale (col : list (option Q)) (s : Q) :
  (nansum (map (option_map (fun w => w / s)) col) == nansum col / s)%Q.
Proof.
  induction col as [|[w|] col IH]; simpl.
  - unfold Qdiv. ring.
  - rewrite IH. unfold Qdiv. ring.
  - exact IH.
Qed.

Lemma nansum_pos (col : list (option Q)) :
  Forall (fun o => forall w, o = Some w -> (0 < w)%Q) col ->
  (exists w, In (Some w) col) ->
  (0 < nansum col)%Q.
Proof.
  intros Hall. induction Hall as [|o col Ho Hall IH]; intros [w Hin].
  - destruct Hin.
  - assert (Hnn : Forall (fun o => forall w, o = Some w -> (0 < w)%Q) col ->
                  (0 <= nansum col)%Q).
    { clear. intros H. induction H as [|o col Ho _ IH]; simpl; [lra|].
      destruct o as [w|]; [specialize (Ho w eq_refl); lra | exact IH]. }
    specialize (Hnn Hall). simpl. destruct o as [w0|].
    + specialize (Ho w0 eq_refl). lra.
    + destruct Hin as [Heq|Hin]; [discriminate|]. apply IH. exists w. exact Hin.
Qed.

Lemma label_weights_sum (imbalance_ratios : list (list (label * Q))) (l : label) :
  Forall (fun ratio => forall w, dict_get ratio l = Some w -> (0 < w)%Q)
         imbalance_ratios ->
  (exists ratio w, In ratio imbalance_ratios /\ dict_get ratio l = Some w) ->
  (nansum (label_weights imbalance_ratios l) == 1)%Q.
Proof.
  intros Hpos [ratio [w [Hin Hget]]]. unfold label_weights.
  rewrite nansum_scale.
  assert (Hs : (0 < nansum (map (fun ratio => dict_get ratio l) imbalance_ratios))%Q).
  { apply nansum_pos.
    - apply Forall_map. exact Hpos.
    - exists w. rewrite <- Hget. apply in_map_iff. exists ratio. split; auto. }
  field. intro Hz. rewrite Hz in Hs. exact (Qlt_irrefl _ Hs).
Qed.

Lemma filter_map_comm {A B : Type} (p : B -> bool) (f : A -> B) (l : list A) :
  filter p (map f l) = map f (filter (fun a => p (f a)) l).
Proof.
  induction l as [|a l IH]; simpl; [reflexivity|].
  destruct (p (f a)); simpl; rewrite IH; reflexivity.
Qed.

Lemma Forall2_map_graph {A B : Type} (P : A -> B -> Prop) (f : A -> B)
  (l : list A) :
  (forall a, In a l -> P a (f a)) -> Forall2 P l (map f l).
Proof.
  induction l as [|a l IH]; simpl; intros H; constructor.
  - apply H. left. reflexivity.
  - apply IH. intros b Hb. apply H. right. exact Hb.
Qed.

Lemma imbalance_ratios_of_frame (cols : list nat) (df : list row)
  (majority_label : label) (thr : Q) (k : option Z) :
  imbalance_ratios_of (classes_stats_frame cols df majority_label thr k) =
  map (fun kg => snd (_generate_classes_stats (group_labels kg) majority_label thr k))
      (filter (group_included majority_label thr k) (groupby cols df)).
Proof.
  unfold imbalance_ratios_of, classes_stats_frame.
  rewrite filter_map_comm, map_map. reflexivity.
Qed.

Lemma included_groups_of_frame (cols : list nat) (df : list row)
  (majority_label : label) (thr : Q) (k : option Z) :
  included_groups_of (classes_stats_frame cols df majority_label thr k) =
  map fst (filter (group_included majority_label thr k) (groupby cols df)).
Proof.
  unfold included_groups_of, classes_stats_frame.
  rewrite filter_map_comm, map_map. reflexivity.
Qed.

Lemma excluded_groups_of_frame (cols : list nat) (df : list row)
  (majority_label : label) (thr : Q) (k : option Z) :
  excluded_groups_of (classes_stats_frame cols df majority_label thr k) =
  map fst (filter (fun kg => negb (group_included majority_label thr k kg))
                  (groupby cols df)).
Proof.
  unfold excluded_groups_of, classes_stats_frame.
  rewrite filter_map_comm, map_map. reflexivity.
Qed.

Lemma nansum_cons (o : option Q) (col : list (option Q)) :
  nansum (o :: col) =
  match o with Some w => (w + nansum col)%Q | None => nansum col end.
Proof. reflexivity. Qed.

Lemma Qsum_defined_weights (col : list (option Q)) :
  (Qsum (defined_weights col) == nansum col)%Q.
Proof.
  induction col as [|[w|] col IH]; simpl.
  - reflexivity.
  - rewrite <- IH. reflexivity.
  - exact IH.
Qed.

Lemma existsb_eqb_In (l : label) (y : list label) :
  existsb (Z.eqb l) y = true <-> In l y.
Proof.
  rewrite existsb_exists. split.
  - intros [x [Hx He]]. apply Z.eqb_eq in He. subst x. exact Hx.
  - intros H. exists l. split; [exact H | apply Z.eqb_refl].
Qed.

Lemma existsb_eqb_n_occ (l : label) (y : list label) :
  existsb (Z.eqb l) y = Z.ltb 0 (n_occ l y).
Proof.
  destruct (Z.ltb 0 (n_occ l y)) eqn:E.
  - apply existsb_eqb_In. apply n_occ_pos_iff. apply Z.ltb_lt. exact E.
  - destruct (existsb (Z.eqb l) y) eqn:E'; [|reflexivity].
    apply existsb_eqb_In in E'. apply n_occ_pos_iff in E'.
    apply Z.ltb_ge in E. lia.
Qed.

(** The total that [Series.sum()] finds in the column of a label is the sum
    of the modified ratios of the groups that have the label. *)
Lemma nansum_total_modified_ratio (majority_label l : label) (thr : Q)
  (k : option Z) (groups : list (key * list row)) :
  l <> majority_label ->
  (nansum (map (fun kg =>
                  dict_get (snd (_generate_classes_stats (group_labels kg)
                                   majority_label thr k)) l) groups)
   == total_modified_ratio majority_label l groups)%Q.
Proof.
  intros Hne. apply Z.eqb_neq in Hne. unfold total_modified_ratio.
  induction groups as [|kg groups IH]; [reflexivity|].
  cbn [map filter]. rewrite nansum_cons, dict_get_modified_ratios.
  rewrite existsb_eqb_n_occ, Hne. cbn [negb andb].
  destruct (Z.ltb 0 (n_occ l (group_labels kg))); cbn [map Qsum fold_right].
  - unfold Qsum in IH. rewrite IH. reflexivity.
  - exact IH.
Qed.

(** C5. For a minority label that occurs in at least one included group, the
    weights of the label over the included groups add up to 1 (exactly, over
    the rationals). The weight of a group that has the label is its modified
    imbalance ratio [(majority_count + 1) / (label_count + 1)] divided by the
    total of these ratios over the included groups that have the label, and
    an included group without the label has no weight at all. *)
Theorem weights_sum_to_one (cols : list nat) (df : list row)
  (majority_label : label) (thr : Q) (k : option Z) (l : label) :
  let groups := filter (group_included majority_label thr k) (groupby cols df) in
  let weights :=
    label_weights
      (imbalance_ratios_of (classes_stats_frame cols df majority_label thr k)) l in
  l <> majority_label ->
  (exists kg, In kg groups /\ In l (group_labels kg)) ->
  (Qsum (defined_weights weights) == 1)%Q /\
  exists total : Q,
    (total == total_modified_ratio majority_label l groups)%Q /\
    (0 < total)%Q /\
    Forall2 (fun kg w =>
               (In l (group_labels kg) ->
                w = Some (modified_ratio majority_label l (group_labels kg)
                          / total)%Q) /\
               (~ In l (group_labels kg) -> w = None))
            groups weights.
Proof.
  intros groups weights Hne [kg0 [Hin0 Hl0]].
  assert (Hget : forall kg,
             dict_get (snd (_generate_classes_stats (group_labels kg)
                              majority_label thr k)) l =
             if Z.ltb 0 (n_occ l (group_labels kg))
             then Some (modified_ratio majority_label l (group_labels kg))
             else None).
  { intros kg. rewrite dict_get_modified_ratios.
    apply Z.eqb_neq in Hne. rewrite Hne. reflexivity. }
  subst weights. rewrite imbalance_ratios_of_frame. fold groups.
  assert (Hpos : Forall (fun ratio => forall w, dict_get ratio l = Some w -> (0 < w)%Q)
                   (map (fun kg => snd (_generate_classes_stats (group_labels kg)
                                          majority_label thr k)) groups)).
  { apply Forall_map. apply Forall_forall. intros kg _ w. rewrite Hget.
    destruct (Z.ltb 0 (n_occ l (group_labels kg))); [|discriminate].
    intros [= <-]. apply modified_ratio_pos. }
  assert (Hsome : dict_get (snd (_generate_classes_stats (group_labels kg0)
                                   majority_label thr k)) l
                  = Some (modified_ratio majority_label l (group_labels kg0))).
  { rewrite Hget. apply n_occ_pos_iff in Hl0. apply Z.ltb_lt in Hl0.
    rewrite Hl0. reflexivity. }
  split.
  - rewrite Qsum_defined_weights. apply label_weights_sum; [exact Hpos|].
    exists (snd (_generate_classes_stats (group_labels kg0) majority_label thr k)).
    exists (modified_ratio majority_label l (group_labels kg0)). split.
    + apply in_map_iff. exists kg0. split; [reflexivity | exact Hin0].
    + exact Hsome.
  - unfold label_weights. rewrite !map_map.
    exists (nansum (map (fun kg =>
                           dict_get (snd (_generate_classes_stats (group_labels kg)
                                            majority_label thr k)) l) groups)).
    split; [exact (nansum_total_modified_ratio _ _ _ _ _ Hne)|]. split.
    + apply nansum_pos.
      * rewrite <- (map_map (fun kg => snd (_generate_classes_stats
                                              (group_labels kg) majority_label thr k))
                            (fun ratio => dict_get ratio l)).
        apply Forall_map. exact Hpos.
      * exists (modified_ratio majority_label l (group_labels kg0)).
        rewrite <- Hsome. apply in_map_iff. exists kg0.
        split; [reflexivity | exact Hin0].
    + apply Forall2_map_graph. intros kg _. rewrite Hget.
      destruct (Z.ltb 0 (n_occ l (group_labels kg))) eqn:E.
      * split; [intros _; reflexivity|].
        intros Hnot. exfalso. apply Hnot. apply n_occ_pos_iff.
        apply Z.ltb_lt. exact E.
      * split; [|intros _; reflexivity].
        intros Hin. apply n_occ_pos_iff in Hin. apply Z.ltb_ge in E. lia.
Qed.

(* ================================================================== *)
(** * Grouping by the categorical columns *)

Lemma key_eqb_refl (a : key) : key_eqb a a = true.
Proof.
  induction a as [|x a IH]; simpl; [reflexivity|].
  rewrite Qeq_bool_refl. exact IH.
Qed.

Lemma key_eqb_sym (a b : key) : key_eqb a b = key_eqb b a.
Proof.
  revert b. induction a as [|x a IH]; intros [|y b]; simpl; try reflexivity.
  rewrite Qeq_bool_comm, IH. reflexivity.
Qed.

Lemma key_eqb_trans (a b c : key) :
  key_eqb a b = true -> key_eqb b c = true -> key_eqb a c = true.
Proof.
  revert b c. induction a as [|x a IH]; intros [|y b] [|z c]; simpl;
    try discriminate; try reflexivity.
  rewrite !andb_true_iff. intros [H1 H2] [H3 H4]. split.
  - exact (Qeq_bool_trans _ _ _ H1 H3).
  - exact (IH _ _ H2 H4).
Qed.

Lemma key_eqb_congr (a b c : key) :
  key_eqb a b = true -> key_eqb a c = key_eqb b c.
Proof.
  intros Hab. destruct (key_eqb b c) eqn:Ebc.
  - exact (key_eqb_trans _ _ _ Hab Ebc).
  - destruct (key_eqb a c) eqn:Eac; [|reflexivity].
    rewrite key_eqb_sym in Hab.
    rewrite (key_eqb_trans _ _ _ Hab Eac) in Ebc. discriminate.
Qed.

Lemma existsb_key_eqb_congr (a b : key) (ks : list key) :
  key_eqb a b = true -> existsb (key_eqb a) ks = existsb (key_eqb b) ks.
Proof.
  intros Hab. induction ks as [|k ks IH]; simpl; [reflexivity|].
  rewrite IH, (key_eqb_congr _ _ _ Hab). reflexivity.
Qed.

Lemma existsb_insert_key (p : key -> bool) (k : key) (ks : list key) :
  existsb p (insert_key k ks) = p k || existsb p ks.
Proof.
  induction ks as [|k' ks IH]; simpl; [reflexivity|].
  destruct (key_ltb k k'); simpl; [reflexivity|].
  rewrite IH. destruct (p k), (p k'); reflexivity.
Qed.

Lemma insert_key_perm (k : key) (ks : list key) :
  Permutation (insert_key k ks) (k :: ks).
Proof.
  induction ks as [|k' ks IH]; simpl; [reflexivity|].
  destruct (key_ltb k k'); [reflexivity|].
  rewrite IH. apply perm_swap.
Qed.

Lemma distinct_insert_key (k : key) (ks : list key) :
  existsb (key_eqb k) ks = false -> distinct_keys ks = true ->
  distinct_keys (insert_key k ks) = true.
Proof.
  induction ks as [|k' ks IH]; simpl; intros Hk Hd; [reflexivity|].
  apply orb_false_iff in Hk. destruct Hk as [Hkk' Hk].
  apply andb_true_iff in Hd. destruct Hd as [Hk' Hd].
  destruct (key_ltb k k'); simpl.
  - rewrite Hkk', Hk, Hk', Hd. reflexivity.
  - rewrite existsb_insert_key, (key_eqb_sym k' k), Hkk'. simpl.
    rewrite Hk'. simpl. exact (IH Hk Hd).
Qed.

Lemma distinct_add_key (ks : list key) (k : key) :
  distinct_keys ks = true -> distinct_keys (add_key ks k) = true.
Proof.
  intros Hd. unfold add_key.
  destruct (existsb (key_eqb k) ks) eqn:E; [exact Hd|].
  exact (distinct_insert_key _ _ E Hd).
Qed.

Lemma existsb_add_key (x k : key) (ks : list key) :
  existsb (key_eqb x) (add_key ks k) = key_eqb x k || existsb (key_eqb x) ks.
Proof.
  unfold add_key. destruct (existsb (key_eqb k) ks) eqn:E.
  - destruct (key_eqb x k) eqn:Exk; [|reflexivity].
    rewrite (existsb_key_eqb_congr _ _ _ Exk), E. reflexivity.
  - apply existsb_insert_key.
Qed.

Lemma fold_add_key_distinct (l acc : list key) :
  distinct_keys acc = true -> distinct_keys (fold_left add_key l acc) = true.
Proof.
  revert acc. induction l as [|k l IH]; simpl; intros acc Hd; [exact Hd|].
  apply IH. apply distinct_add_key. exact Hd.
Qed.

Lemma fold_add_key_existsb (x : key) (l acc : list key) :
  existsb (key_eqb x) (fold_left add_key l acc) =
  existsb (key_eqb x) acc || existsb (key_eqb x) l.
Proof.
  revert acc. induction l as [|k l IH]; simpl; intros acc.
  - rewrite orb_false_r. reflexivity.
  - rewrite IH, existsb_add_key.
    destruct (key_eqb x k), (existsb (key_eqb x) acc); reflexivity.
Qed.

Lemma group_keys_distinct (cols : list nat) (df : list row) :
  distinct_keys (group_keys cols df) = true.
Proof. apply fold_add_key_distinct. reflexivity. Qed.

Lemma group_keys_cover (cols : list nat) (df : list row) (r : row) :
  In r df -> existsb (key_eqb (key_of cols r)) (group_keys cols df) = true.
Proof.
  intros Hin. unfold group_keys. rewrite fold_add_key_existsb. simpl.
  apply existsb_exists. exists (key_of cols r). split.
  - apply in_map. exact Hin.
  - apply key_eqb_refl.
Qed.

Lemma distinct_keys_filter (p : key -> bool) (ks : list key) :
  distinct_keys ks = true -> distinct_keys (filter p ks) = true.
Proof.
  induction ks as [|k ks IH]; simpl; intros Hd; [reflexivity|].
  apply andb_true_iff in Hd. destruct Hd as [Hk Hd].
  destruct (p k); simpl; [|exact (IH Hd)].
  rewrite (IH Hd), andb_true_r. rewrite negb_true_iff in *.
  destruct (existsb (key_eqb k) (filter p ks)) eqn:E; [|reflexivity].
  apply existsb_exists in E. destruct E as [x [Hx Hkx]].
  apply filter_In in Hx.
  assert (existsb (key_eqb k) ks = true) as E'
    by (apply existsb_exists; exists x; split; tauto).
  congruence.
Qed.

Lemma In_rows_with_keys (cols : list nat) (df : list row) (keys : list key)
  (r : row) :
  In r (rows_with_keys cols df keys) <->
  In r df /\ existsb (key_eqb (key_of cols r)) keys = true.
Proof. unfold rows_with_keys. apply filter_In. Qed.

Lemma rows_with_keys_cons (cols : list nat) (r : row) (df : list row)
  (keys : list key) :
  rows_with_keys cols (r :: df) keys =
  if existsb (key_eqb (key_of cols r)) keys
  then r :: rows_with_keys cols df keys else rows_with_keys cols df keys.
Proof. reflexivity. Qed.

Lemma rows_with_keys_same (cols : list nat) (df : list row) (ks ks' : list key) :
  (forall r, In r df ->
     existsb (key_eqb (key_of cols r)) ks = existsb (key_eqb (key_of cols r)) ks') ->
  rows_with_keys cols df ks = rows_with_keys cols df ks'.
Proof. intros H. unfold rows_with_keys. apply filter_ext_in. exact H. Qed.

Lemma rows_with_keys_all (cols : list nat) (df : list row) (ks : list key) :
  (forall r, In r df -> existsb (key_eqb (key_of cols r)) ks = true) ->
  rows_with_keys cols df ks = df.
Proof.
  intros H. unfold rows_with_keys. induction df as [|r df IH]; simpl; [reflexivity|].
  rewrite (H r (or_introl eq_refl)). f_equal. apply IH.
  intros r' Hr'. apply H. right. exact Hr'.
Qed.

Lemma rows_with_keys_none (cols : list nat) (df : list row) (ks : list key) :
  (forall r, In r df -> existsb (key_eqb (key_of cols r)) ks = false) ->
  rows_with_keys cols df ks = [].
Proof.
  intros H. unfold rows_with_keys. induction df as [|r df IH]; simpl; [reflexivity|].
  rewrite (H r (or_introl eq_refl)). apply IH.
  intros r' Hr'. apply H. right. exact Hr'.
Qed.

Lemma existsb_push_key (x k : key) (ks : list key) :
  existsb (key_eqb x) (push_key ks k) = key_eqb x k || existsb (key_eqb x) ks.
Proof.
  unfold push_key. destruct (existsb (key_eqb k) ks) eqn:E.
  - destruct (key_eqb x k) eqn:Exk; [|reflexivity].
    rewrite (existsb_key_eqb_congr _ _ _ Exk), E. reflexivity.
  - rewrite existsb_app. simpl. rewrite orb_false_r. apply orb_comm.
Qed.

Lemma distinct_push_key (ks : list key) (k : key) :
  distinct_keys ks = true -> distinct_keys (push_key ks k) = true.
Proof.
  intros Hd. unfold push_key.
  destruct (existsb (key_eqb k) ks) eqn:E; [exact Hd|].
  induction ks as [|k' ks IH]; simpl in *; [reflexivity|].
  apply orb_false_iff in E. destruct E as [Ekk' E].
  apply andb_true_iff in Hd. destruct Hd as [Hk' Hd].
  rewrite (IH Hd E), andb_true_r, existsb_app. simpl.
  rewrite negb_true_iff in *. rewrite Hk', (key_eqb_sym k' k), Ekk'. reflexivity.
Qed.

Lemma fold_push_key_distinct (l acc : list key) :
  distinct_keys acc = true -> distinct_keys (fold_left push_key l acc) = true.
Proof.
  revert acc. induction l as [|k l IH]; simpl; intros acc Hd; [exact Hd|].
  apply IH. apply distinct_push_key. exact Hd.
Qed.

Lemma fold_push_key_existsb (x : key) (l acc : list key) :
  existsb (key_eqb x) (fold_left push_key l acc) =
  existsb (key_eqb x) acc || existsb (key_eqb x) l.
Proof.
  revert acc. induction l as [|k l IH]; simpl; intros acc.
  - rewrite orb_false_r. reflexivity.
  - rewrite IH, existsb_push_key.
    destruct (key_eqb x k), (existsb (key_eqb x) acc); reflexivity.
Qed.

Lemma first_keys_distinct (cols : list nat) (df : list row) :
  distinct_keys (first_keys cols df) = true.
Proof. apply fold_push_key_distinct. reflexivity. Qed.

Lemma first_keys_cover (cols : list nat) (df : list row) (r : row) :
  In r df -> existsb (key_eqb (key_of cols r)) (first_keys cols df) = true.
Proof.
  intros Hin. unfold first_keys. rewrite fold_push_key_existsb. simpl.
  apply existsb_exists. exists (key_of cols r). split.
  - apply in_map. exact Hin.
  - apply key_eqb_refl.
Qed.

(** The keys of [df] that the join keeps stand for the same rows as the keys
    that were asked for. *)
Lemma existsb_kept_keys (cols : list nat) (df : list row) (keys : list key)
  (r : row) :
  In r df ->
  existsb (key_eqb (key_of cols r))
    (filter (fun k => existsb (key_eqb k) keys) (first_keys cols df)) =
  existsb (key_eqb (key_of cols r)) keys.
Proof.
  intros Hr.
  destruct (existsb (key_eqb (key_of cols r)) keys) eqn:E.
  - pose proof (first_keys_cover cols df r Hr) as Hc.
    apply existsb_exists in Hc. destruct Hc as [k0 [Hk0 Hrk0]].
    apply existsb_exists. exists k0. split; [|exact Hrk0].
    apply filter_In. split; [exact Hk0|].
    rewrite <- (existsb_key_eqb_congr _ _ keys Hrk0). exact E.
  - destruct (existsb _ (filter _ _)) eqn:E'; [|reflexivity].
    apply existsb_exists in E'. destruct E' as [k0 [Hk0 Hrk0]].
    apply filter_In in Hk0. destruct Hk0 as [_ Hk0].
    rewrite <- (existsb_key_eqb_congr _ _ keys Hrk0) in Hk0. congruence.
Qed.

Lemma concat_cons_perm (kr : key) (r : row) (f : key -> list row)
  (ks : list key) :
  distinct_keys ks = true ->
  Permutation
    (List.concat (map (fun k => if existsb (key_eqb kr) [k] then r :: f k else f k) ks))
    (if existsb (key_eqb kr) ks
     then r :: List.concat (map f ks) else List.concat (map f ks)).
Proof.
  induction ks as [|k ks IH]; simpl; intros Hd; [reflexivity|].
  apply andb_true_iff in Hd. destruct Hd as [Hk Hd]. specialize (IH Hd).
  rewrite orb_false_r. destruct (key_eqb kr k) eqn:E; simpl.
  - rewrite negb_true_iff in Hk.
    rewrite (existsb_key_eqb_congr _ _ _ E), Hk in IH.
    apply perm_skip. apply Permutation_app_head. exact IH.
  - destruct (existsb (key_eqb kr) ks).
    + rewrite IH. symmetry. apply Permutation_middle.
    + apply Permutation_app_head. exact IH.
Qed.

(** The single-key selections of distinct keys, put end to end, are the
    selection of all these keys at once, up to the order of the rows. *)
Lemma concat_rows_perm (cols : list nat) (df : list row) (ks : list key) :
  distinct_keys ks = true ->
  Permutation (List.concat (map (fun k => rows_with_keys cols df [k]) ks))
              (rows_with_keys cols df ks).
Proof.
  intros Hd. induction df as [|r df IH].
  - simpl. induction ks as [|k ks IHks]; simpl; [reflexivity|].
    apply andb_true_iff in Hd. exact (IHks (proj2 Hd)).
  - rewrite rows_with_keys_cons.
    rewrite (map_ext (fun k => rows_with_keys cols (r :: df) [k])
               (fun k => if existsb (key_eqb (key_of cols r)) [k]
                         then r :: rows_with_keys cols df [k]
                         else rows_with_keys cols df [k]))
      by (intros k; apply rows_with_keys_cons).
    rewrite (concat_cons_perm _ _ _ _ Hd).
    destruct (existsb (key_eqb (key_of cols r)) ks); [apply perm_skip|]; exact IH.
Qed.

(** The join returns the rows whose key was asked for, key by key. *)
Lemma merge_perm (cols : list nat) (df : list row) (keys : list key) :
  Permutation (merge cols df keys) (rows_with_keys cols df keys).
Proof.
  unfold merge.
  rewrite (concat_rows_perm cols df _
             (distinct_keys_filter _ _ (first_keys_distinct cols df))).
  rewrite (rows_with_keys_same cols df _ keys); [reflexivity|].
  intros r Hr. apply existsb_kept_keys. exact Hr.
Qed.

Lemma concat_one_key (cols : list nat) (df : list row) (k : key) (ks : list key) :
  distinct_keys ks = true ->
  List.concat (map (fun k' => rows_with_keys cols df [k'])
                   (filter (fun k' => key_eqb k' k) ks)) =
  if existsb (fun k' => key_eqb k' k) ks then rows_with_keys cols df [k] else [].
Proof.
  induction ks as [|k0 ks IH]; simpl; intros Hd; [reflexivity|].
  apply andb_true_iff in Hd. destruct Hd as [Hk0 Hd].
  rewrite negb_true_iff in Hk0.
  destruct (key_eqb k0 k) eqn:E; simpl; [|exact (IH Hd)].
  rewrite (IH Hd).
  assert (Hno : existsb (fun k' => key_eqb k' k) ks = false).
  { destruct (existsb (fun k' => key_eqb k' k) ks) eqn:E'; [|reflexivity].
    apply existsb_exists in E'. destruct E' as [x [Hx Hxk]].
    assert (existsb (key_eqb k0) ks = true) as E''.
    { apply existsb_exists. exists x. split; [exact Hx|].
      rewrite key_eqb_sym in Hxk. exact (key_eqb_trans _ _ _ E Hxk). }
    congruence. }
  rewrite Hno, app_nil_r. apply rows_with_keys_same.
  intros r _. simpl. rewrite !orb_false_r.
  rewrite (key_eqb_sym (key_of cols r) k0), (key_eqb_sym (key_of cols r) k).
  apply key_eqb_congr. exact E.
Qed.

(** For a single key the join is a selection: the rows with that key, in the
    order of the frame. *)
Lemma merge_one (cols : list nat) (df : list row) (k : key) :
  merge cols df [k] = rows_with_keys cols df [k].
Proof.
  unfold merge.
  rewrite (filter_ext (fun k' => existsb (key_eqb k') [k])
             (fun k' => key_eqb k' k))
    by (intros k'; simpl; apply orb_false_r).
  rewrite (concat_one_key _ _ _ _ (first_keys_distinct cols df)).
  destruct (existsb (fun k' => key_eqb k' k) (first_keys cols df)) eqn:E;
    [reflexivity|].
  symmetry. apply rows_with_keys_none. intros r Hr. simpl. rewrite orb_false_r.
  destruct (key_eqb (key_of cols r) k) eqn:Erk; [|reflexivity].
  pose proof (first_keys_cover cols df r Hr) as Hc.
  apply existsb_exists in Hc. destruct Hc as [k0 [Hk0 Hrk0]].
  assert (existsb (fun k' => key_eqb k' k) (first_keys cols df) = true) as E'.
  { apply existsb_exists. exists k0. split; [exact Hk0|].
    rewrite key_eqb_sym in Hrk0. exact (key_eqb_trans _ _ _ Hrk0 Erk). }
  congruence.
Qed.

Lemma In_merge (cols : list nat) (df : list row) (keys : list key) (r : row) :
  In r (merge cols df keys) <->
  In r df /\ existsb (key_eqb (key_of cols r)) keys = true.
Proof.
  rewrite <- In_rows_with_keys. split; apply Permutation_in.
  - apply merge_perm.
  - symmetry. apply merge_perm.
Qed.

Lemma In_merge_one (cols : list nat) (df : list row) (k : key) (r : row) :
  In r (merge cols df [k]) <-> In r df /\ key_eqb (key_of cols r) k = true.
Proof. rewrite In_merge. simpl. rewrite orb_false_r. reflexivity. Qed.

Lemma concat_merge_perm (cols : list nat) (df : list row) (ks : list key) :
  distinct_keys ks = true ->
  Permutation (List.concat (map (fun k => merge cols df [k]) ks)) (merge cols df ks).
Proof.
  intros Hd.
  rewrite (map_ext (fun k => merge cols df [k])
             (fun k => rows_with_keys cols df [k]))
    by (intros k; apply merge_one).
  rewrite (concat_rows_perm _ _ _ Hd). symmetry. apply merge_perm.
Qed.

Lemma merge_all (cols : list nat) (df : list row) (ks : list key) :
  (forall r, In r df -> existsb (key_eqb (key_of cols r)) ks = true) ->
  Permutation (merge cols df ks) df.
Proof.
  intros H. rewrite merge_perm, (rows_with_keys_all _ _ _ H). reflexivity.
Qed.

Lemma groupby_concat (cols : list nat) (df : list row) :
  Permutation (List.concat (map snd (groupby cols df))) df.
Proof.
  unfold groupby. rewrite map_map. cbn [snd].
  rewrite (concat_merge_perm _ _ _ (group_keys_distinct cols df)).
  rewrite merge_all; [reflexivity|].
  intros r Hr. apply group_keys_cover. exact Hr.
Qed.

Lemma distinct_keys_In_eq (ks : list key) (k k' : key) :
  distinct_keys ks = true -> In k ks -> In k' ks ->
  key_eqb k k' = true -> k = k'.
Proof.
  induction ks as [|k0 ks IH]; simpl; intros Hd Hk Hk' He; [destruct Hk|].
  apply andb_true_iff in Hd. destruct Hd as [Hk0 Hd].
  rewrite negb_true_iff in Hk0.
  assert (Hno : forall x, In x ks -> key_eqb k0 x = false).
  { intros x Hx. destruct (key_eqb k0 x) eqn:E; [|reflexivity].
    assert (existsb (key_eqb k0) ks = true) as E'
      by (apply existsb_exists; exists x; split; assumption).
    congruence. }
  destruct Hk as [<-|Hk], Hk' as [<-|Hk'].
  - reflexivity.
  - rewrite (Hno _ Hk') in He. discriminate.
  - rewrite key_eqb_sym, (Hno _ Hk) in He. discriminate.
  - exact (IH Hd Hk Hk' He).
Qed.

Lemma concat_map_perm {A B : Type} (f : A -> list B) (l l' : list A) :
  Permutation l l' ->
  Permutation (List.concat (map f l)) (List.concat (map f l')).
Proof.
  induction 1 as [|a l l' _ IH|a b l|l l' l'' _ IH1 _ IH2]; simpl.
  - reflexivity.
  - apply Permutation_app_head. exact IH.
  - rewrite !app_assoc. apply Permutation_app_tail. apply Permutation_app_comm.
  - exact (Permutation_trans IH1 IH2).
Qed.

Lemma filter_split_perm {A : Type} (p : A -> bool) (l : list A) :
  Permutation (filter p l ++ filter (fun a => negb (p a)) l) l.
Proof.
  induction l as [|a l IH]; simpl; [reflexivity|].
  destruct (p a); simpl.
  - apply perm_skip. exact IH.
  - symmetry. rewrite <- IH at 1. apply Permutation_middle.
Qed.

(** The keys of the included and of the excluded groups, read off the group
    keys. *)
Lemma included_groups_filter (cols : list nat) (df : list row)
  (majority_label : label) (thr : Q) (k : option Z) :
  included_groups_of (classes_stats_frame cols df majority_label thr k) =
  filter (fun key => group_included majority_label thr k
                       (key, merge cols df [key]))
         (group_keys cols df).
Proof.
  rewrite included_groups_of_frame. unfold groupby.
  rewrite filter_map_comm, map_map. cbn [fst]. apply map_id.
Qed.

Lemma excluded_groups_filter (cols : list nat) (df : list row)
  (majority_label : label) (thr : Q) (k : option Z) :
  excluded_groups_of (classes_stats_frame cols df majority_label thr k) =
  filter (fun key => negb (group_included majority_label thr k
                             (key, merge cols df [key])))
         (group_keys cols df).
Proof.
  rewrite excluded_groups_of_frame. unfold groupby.
  rewrite filter_map_comm, map_map. cbn [fst]. apply map_id.
Qed.

Lemma split_merge_perm (cols : list nat) (df : list row) (p : key -> bool)
  (ks : list key) :
  distinct_keys ks = true ->
  Permutation
    (List.concat (map (fun key => merge cols df [key]) (filter p ks))
     ++ merge cols df (filter (fun a => negb (p a)) ks))
    (merge cols df ks).
Proof.
  intros Hd.
  rewrite <- (concat_merge_perm cols df (filter (fun a => negb (p a)) ks))
    by (apply distinct_keys_filter; exact Hd).
  rewrite <- concat_app, <- map_app.
  rewrite (concat_map_perm _ _ _ (filter_split_perm p ks)).
  exact (concat_merge_perm _ _ _ Hd).
Qed.

Lemma included_excluded_perm (cols : list nat) (df : list row)
  (majority_label : label) (thr : Q) (k : option Z) :
  let classes_stats := classes_stats_frame cols df majority_label thr k in
  Permutation
    (List.concat (map (fun key => merge cols df [key])
                      (included_groups_of classes_stats))
     ++ merge cols df (excluded_groups_of classes_stats))
    df.
Proof.
  cbv zeta. rewrite included_groups_filter, excluded_groups_filter.
  rewrite (split_merge_perm cols df
             (fun key => group_included majority_label thr k
                           (key, merge cols df [key]))
             _ (group_keys_distinct cols df)).
  rewrite merge_all; [reflexivity|].
  intros r Hr. apply group_keys_cover. exact Hr.
Qed.

Lemma key_eqb_Forall2 (a b : key) : key_eqb a b = true <-> Forall2 Qeq a b.
Proof.
  revert b. induction a as [|x a IH]; intros [|y b]; simpl.
  - split; [constructor | reflexivity].
  - split; [discriminate | intros H; inversion H].
  - split; [discriminate | intros H; inversion H].
  - rewrite andb_true_iff, Qeq_bool_iff, IH. split.
    + intros [H1 H2]. constructor; assumption.
    + intros H. inversion H; subst. split; assumption.
Qed.

Lemma same_categorical_values_keys (cols : list nat) (x x' : list Q) :
  same_categorical_values cols x x' <->
  Forall2 Qeq (row_key cols x) (row_key cols x').
Proof.
  unfold same_categorical_values, row_key.
  induction cols as [|c cols IH]; simpl.
  - split; [constructor | intros _ c []].
  - split.
    + intros H. constructor; [apply H; left; reflexivity|].
      apply IH. intros c' Hc'. apply H. right. exact Hc'.
    + intros H c' [<-|Hc']; inversion H; subst; [assumption|].
      apply IH; assumption.
Qed.

(** C6. Grouping by the categorical columns is a partition of the rows. The
    groups put end to end are a rearrangement of the data frame (no row is
    dropped or duplicated); a group holds exactly the rows whose values in
    the categorical columns are, column by column, those of its key; two rows
    are in a same group if and only if they have the same value in every
    categorical column; every row is in one and only one group; and the rows
    that [_sample] selects for the included groups together with the rows of
    the excluded groups are again a rearrangement of the data frame. *)
Theorem groupby_partition (cols : list nat) (df : list row)
  (majority_label : label) (thr : Q) (k : option Z) :
  let groups := groupby cols df in
  let classes_stats := classes_stats_frame cols df majority_label thr k in
  Permutation (List.concat (map snd groups)) df /\
  (forall kg r, In kg groups ->
     (In r (snd kg) <->
      In r df /\ Forall2 Qeq (row_key cols (fst r)) (fst kg))) /\
  (forall r r', In r df -> In r' df ->
     (same_categorical_values cols (fst r) (fst r') <->
      exists kg, In kg groups /\ In r (snd kg) /\ In r' (snd kg))) /\
  (forall r, In r df ->
     exists kg, In kg groups /\ In r (snd kg) /\
       forall kg', In kg' groups -> In r (snd kg') -> kg' = kg) /\
  Permutation
    (List.concat (map (fun key => merge cols df [key])
                      (included_groups_of classes_stats))
     ++ merge cols df (excluded_groups_of classes_stats))
    df.
Proof.
  cbv zeta. split; [apply groupby_concat|].
  assert (Hgrp : forall kg r, In kg (groupby cols df) ->
            (In r (snd kg) <->
             In r df /\ key_eqb (key_of cols r) (fst kg) = true)).
  { intros kg r Hkg. unfold groupby in Hkg. apply in_map_iff in Hkg.
    destruct Hkg as [key [<- _]]. cbn [fst snd]. apply In_merge_one. }
  assert (Hone : forall r, In r df ->
            exists kg, In kg (groupby cols df) /\ In r (snd kg) /\
              forall kg', In kg' (groupby cols df) -> In r (snd kg') -> kg' = kg).
  { intros r Hr.
    pose proof (group_keys_cover cols df r Hr) as Hc.
    apply existsb_exists in Hc. destruct Hc as [key [Hkey He]].
    exists (key, merge cols df [key]). split.
    - unfold groupby. apply in_map_iff. exists key.
      split; [reflexivity | exact Hkey].
    - split; [apply In_merge_one; split; assumption|].
      intros kg' Hkg' Hr'. pose proof (proj1 (Hgrp kg' r Hkg') Hr') as [_ He'].
      unfold groupby in Hkg'. apply in_map_iff in Hkg'.
      destruct Hkg' as [key' [<- Hkey']]. cbn [fst] in He'.
      assert (key' = key) as ->; [|reflexivity].
      apply (distinct_keys_In_eq _ _ _ (group_keys_distinct cols df) Hkey' Hkey).
      rewrite key_eqb_sym in He'. exact (key_eqb_trans _ _ _ He' He). }
  split; [|split; [|split; [exact Hone | apply included_excluded_perm]]].
  - intros kg r Hkg. rewrite (Hgrp kg r Hkg), key_eqb_Forall2. reflexivity.
  - intros r r' Hr Hr'. rewrite same_categorical_values_keys.
    change (row_key cols (fst r)) with (key_of cols r).
    change (row_key cols (fst r')) with (key_of cols r').
    rewrite <- key_eqb_Forall2. split.
    + intros He. destruct (Hone r Hr) as (kg & Hkg & Hin & _).
      exists kg. split; [exact Hkg|]. split; [exact Hin|].
      apply (Hgrp kg r' Hkg). split; [exact Hr'|].
      apply (Hgrp kg r Hkg) in Hin. destruct Hin as [_ Hk].
      rewrite key_eqb_sym in He. exact (key_eqb_trans _ _ _ He Hk).
    + intros (kg & Hkg & Hin & Hin').
      apply (Hgrp kg r Hkg) in Hin. apply (Hgrp kg r' Hkg) in Hin'.
      destruct Hin as [_ Hk]. destruct Hin' as [_ Hk'].
      rewrite key_eqb_sym in Hk'. exact (key_eqb_trans _ _ _ Hk Hk').
Qed.

(* ================================================================== *)
(** * Validation *)

Lemma check_cols_cases (name kind : string) (cols : option (list Z)) (m : nat) :
  (exists l, cols = Some l /\ check_cols name kind cols m = Return l /\
             l <> [] /\ range_issuperset m l = true) \/
  (exists msg, check_cols name kind cols m = Raise (ValueError msg)).
Proof.
  unfold check_cols. destruct cols as [l|].
  - destruct l as [|c l].
    + right. eexists. reflexivity.
    + cbn [List.length Nat.eqb orb].
      destruct (range_issuperset m (c :: l)) eqn:E.
      * left. exists (c :: l). repeat split; [discriminate | exact E].
      * right. eexists. reflexivity.
  - right. eexists. reflexivity.
Qed.

Lemma isdisjoint_false (a b : list Z) (c : Z) :
  In c a -> In c b -> isdisjoint a b = false.
Proof.
  intros Ha Hb. unfold isdisjoint. rewrite negb_false_iff.
  apply existsb_exists. exists c. split; [exact Ha|].
  apply existsb_exists. exists c. split; [exact Hb | apply Z.eqb_refl].
Qed.

Lemma validate_Return (self : ExtendedBaseOverSampler) (m : nat) (ic cc : list Z) :
  validate self m = Return (ic, cc) ->
  integer_cols self = Some ic /\ categorical_cols self = Some cc /\
  range_issuperset m ic = true /\ range_issuperset m cc = true /\
  isdisjoint ic cc = true /\ (0 < imbalance_ratio_threshold self)%Q.
Proof.
  unfold validate.
  destruct (check_cols_cases "integer_cols" "integer" (integer_cols self) m)
    as [[l1 (E1 & -> & _ & R1)]|[msg ->]]; simpl; [|discriminate].
  destruct (check_cols_cases "categorical_cols" "categorical"
              (categorical_cols self) m)
    as [[l2 (E2 & -> & _ & R2)]|[msg ->]]; simpl; [|discriminate].
  destruct (isdisjoint l1 l2) eqn:Ed; simpl; [|discriminate].
  destruct (Qle_bool (imbalance_ratio_threshold self) 0) eqn:Et; [discriminate|].
  intros [= <- <-]. repeat split; try assumption.
  apply Qnot_le_lt. intro Hle. apply Qle_bool_iff in Hle. congruence.
Qed.

Lemma validate_raises (self : ExtendedBaseOverSampler) (m : nat) :
  (exists ic cc c, integer_cols self = Some ic /\ categorical_cols self = Some cc
                   /\ In c ic /\ In c cc)
  \/ (imbalance_ratio_threshold self <= 0)%Q ->
  exists msg, validate self m = Raise (ValueError msg).
Proof.
  intros H. unfold validate.
  destruct (check_cols_cases "integer_cols" "integer" (integer_cols self) m)
    as [[l1 (E1 & -> & _ & R1)]|[msg ->]]; simpl; [|eexists; reflexivity].
  destruct (check_cols_cases "categorical_cols" "categorical"
              (categorical_cols self) m)
    as [[l2 (E2 & -> & _ & R2)]|[msg ->]]; simpl; [|eexists; reflexivity].
  destruct (isdisjoint l1 l2) eqn:Ed; simpl; [|eexists; reflexivity].
  destruct (Qle_bool (imbalance_ratio_threshold self) 0) eqn:Et;
    [eexists; reflexivity|].
  exfalso. destruct H as [(ic & cc & c & Hic & Hcc & Hin1 & Hin2)|Hle].
  - rewrite E1 in Hic. rewrite E2 in Hcc.
    injection Hic as <-. injection Hcc as <-.
    rewrite (isdisjoint_false _ _ _ Hin1 Hin2) in Ed. discriminate.
  - apply Qle_bool_iff in Hle. congruence.
Qed.

(** C9. With [categorical_cols] set, a call whose [integer_cols] share a
    column with [categorical_cols], or whose [imbalance_ratio_threshold] is not
    positive, raises a [ValueError]. The error does not depend on the
    over-sampling strategy, on the labels or on the entries of [X] (only on
    its number of columns), and the only attribute written before it is
    [random_state_]: no resampling work has been done. *)
Theorem invalid_configuration_raises (X : ndarray) (self : ExtendedBaseOverSampler)
  (cc : list Z) :
  categorical_cols self = Some cc ->
  (exists ic c, integer_cols self = Some ic /\ In c ic /\ In c cc)
  \/ (imbalance_ratio_threshold self <= 0)%Q ->
  exists msg,
    forall (strategy : ndarray -> list label -> M (ndarray * list label))
           (X' : ndarray) (y' : list label),
      shape1 X' = shape1 X ->
      _sample strategy X' y' self
      = (Raise (ValueError msg), seed_random_state self).
Proof.
  intros Hcc H.
  destruct (validate_raises (seed_random_state self) (shape1 X)) as [msg Hv].
  { destruct H as [(ic & c & Hic & H1 & H2)|Hle].
    - left. exists ic, cc, c. simpl. repeat split; assumption.
    - right. exact Hle. }
  exists msg. intros strategy X' y' Hshape.
  unfold _sample, bind, modify, get_self, lift. simpl.
  rewrite Hcc, Hshape, Hv. reflexivity.
Qed.

(* ================================================================== *)
(** * Without categorical columns *)

(** C3. When [categorical_cols] is unset, [_sample] is the over-sampling
    strategy applied to the whole data set: same result or same exception, and
    same final state, as calling [_partial_sample(X, y)] on the object whose
    random state has been initialised. *)
Theorem sample_without_categorical_cols
  (strategy : ndarray -> list label -> M (ndarray * list label))
  (X : ndarray) (y : list label) (self : ExtendedBaseOverSampler) :
  categorical_cols self = None ->
  _sample strategy X y self = strategy X y (seed_random_state self).
Proof.
  intros Hcc. unfold _sample, bind, modify, get_self. simpl.
  rewrite Hcc. reflexivity.
Qed.

(** C10. When [categorical_cols] is unset no parameter is validated: whatever
    [integer_cols] and [imbalance_ratio_threshold] are, [_sample] raises only
    if the strategy itself raises, with the strategy's exception, and returns
    whenever the strategy returns. *)
Theorem unset_categorical_cols_skips_validation
  (strategy : ndarray -> list label -> M (ndarray * list label))
  (X : ndarray) (y : list label) (self : ExtendedBaseOverSampler) :
  categorical_cols self = None ->
  (forall e, fst (_sample strategy X y self) = Raise e <->
             fst (strategy X y (seed_random_state self)) = Raise e) /\
  (forall res self',
     strategy X y (seed_random_state self) = (Return res, self') ->
     _sample strategy X y self = (Return res, self')).
Proof.
  intros Hcc.
  assert (Heq : _sample strategy X y self = strategy X y (seed_random_state self)).
  { unfold _sample, bind, modify, get_self. simpl. rewrite Hcc. reflexivity. }
  split.
  - intros e. rewrite Heq. reflexivity.
  - intros res self' H. rewrite Heq. exact H.
Qed.

(* ================================================================== *)
(** * The grouped path of [_sample] *)

Section GroupedPath.

Variable strategy : ndarray -> list label -> M (ndarray * list label).

Lemma resample_groups_inv (cols : list nat) (X : ndarray) (y : list label)
  (self self' : ExtendedBaseOverSampler) (resampled : list (list Q) * list label) :
  resample_groups strategy cols X y self = (Return resampled, self') ->
  exists df majority_label acc self1,
    column_stack X y = Return df /\
    majority_label_of (ratio_ self) = Return majority_label /\
    oversample_groups strategy (shape1 X) cols df (ratio_ self) majority_label
      (group_weights cols df (ratio_ self) majority_label
         (imbalance_ratio_threshold self) (k_neighbors self))
      ([], [])
      (set_n_overasmpled_groups_
         (List.length
            (included_groups_of
               (classes_stats_frame cols df majority_label
                  (imbalance_ratio_threshold self) (k_neighbors self))))
         self)
    = (Return acc, self1) /\
    self' = set_ratio_ (ratio_ self) self1 /\
    resampled =
      (fst acc ++ map fst (df_excluded_of cols df majority_label
                             (imbalance_ratio_threshold self) (k_neighbors self)),
       snd acc ++ map snd (df_excluded_of cols df majority_label
                             (imbalance_ratio_threshold self) (k_neighbors self))).
Proof.
  unfold resample_groups, bind, get_self, lift, modify, ret.
  destruct (column_stack X y) as [df|e]; [|discriminate].
  destruct (majority_label_of (ratio_ self)) as [majority_label|e];
    [|discriminate].
  destruct (repeated_column cols); [discriminate|].
  destruct (Nat.eqb (List.length df) 0); [discriminate|].
  fold (group_weights cols df (ratio_ self) majority_label
          (imbalance_ratio_threshold self) (k_neighbors self)).
  fold (df_excluded_of cols df majority_label
          (imbalance_ratio_threshold self) (k_neighbors self)).
  match goal with
  | |- context [oversample_groups ?a ?b ?c ?d ?r ?f ?g ?h ?i] =>
      destruct (oversample_groups a b c d r f g h i) as [[acc|err] self1] eqn:Eloop
  end; [|discriminate].
  intros [= <- <-].
  exists df, majority_label, acc, self1. repeat split. exact Eloop.
Qed.

(** A call that returns has passed the two checks of pandas: no grouping
    column is repeated and the frame has a row. *)
Lemma resample_groups_guards (cols : list nat) (X : ndarray) (y : list label)
  (self self' : ExtendedBaseOverSampler) (resampled : list (list Q) * list label) :
  resample_groups strategy cols X y self = (Return resampled, self') ->
  repeated_column cols = None /\ values X <> [].
Proof.
  unfold resample_groups, bind, get_self, lift, modify, ret.
  destruct (column_stack X y) as [df|e] eqn:Edf; [|discriminate].
  destruct (majority_label_of (ratio_ self)) as [majority_label|e];
    [|discriminate].
  destruct (repeated_column cols); [discriminate|].
  destruct (Nat.eqb (List.length df) 0) eqn:El; [discriminate|].
  intros _. split; [reflexivity|].
  intros HX. unfold column_stack in Edf. rewrite HX in Edf.
  destruct (Nat.eqb (List.length (@nil (list Q))) (List.length y)); [|discriminate].
  injection Edf as <-. discriminate.
Qed.

Lemma sample_grouped_inv (X : ndarray) (y : list label)
  (self self' : ExtendedBaseOverSampler) (cc : list Z)
  (res : ndarray * list label) :
  categorical_cols self = Some cc ->
  _sample strategy X y self = (Return res, self') ->
  exists ic resampled,
    validate (seed_random_state self) (shape1 X) = Return (ic, cc) /\
    resample_groups strategy (map Z.to_nat cc) X y (seed_random_state self)
    = (Return resampled, self') /\
    res = (mk_ndarray (shape1 X)
             (map (round_row (map Z.to_nat ic)) (fst resampled)),
           snd resampled).
Proof.
  intros Hcc. unfold _sample, bind, modify, get_self, lift, ret. simpl.
  rewrite Hcc.
  destruct (validate (seed_random_state self) (shape1 X)) as [[ic cc']|e] eqn:Ev;
    [|discriminate].
  pose proof (validate_Return _ _ _ _ Ev) as (_ & Hcc' & _).
  simpl in Hcc'. rewrite Hcc in Hcc'. injection Hcc' as <-. cbn [fst snd].
  destruct (resample_groups strategy (map Z.to_nat cc) X y
              (seed_random_state self)) as [[resampled|e] self1] eqn:Er;
    [|discriminate].
  intros [= <- <-]. exists ic, resampled. repeat split.
Qed.

End GroupedPath.

(* ================================================================== *)
(** * Rounding of the integer columns *)


Lemma np_round_whole (x : Q) (z : Z) : (x == inject_Z z)%Q -> np_round x = z.
Proof.
  intros Hx. unfold np_round.
  assert (Hf : Qfloor x = z) by (rewrite Hx; apply Qfloor_Z).
  rewrite Hf.
  assert (E : Qltb (x - inject_Z z) (1 # 2) = true) by (apply Qltb_iff; lra).
  rewrite E. reflexivity.
Qed.

Lemma nth_error_map_indexed {A B : Type} (g : nat * A -> B) (r : list A)
  (s c : nat) :
  nth_error (map g (combine (seq s (List.length r)) r)) c =
  option_map (fun v => g ((s + c)%nat, v)) (nth_error r c).
Proof.
  revert s c. induction r as [|a r IH]; intros s [|c]; simpl; try reflexivity.
  - rewrite Nat.add_0_r. reflexivity.
  - rewrite IH. rewrite <- plus_n_Sm. reflexivity.
Qed.

Lemma nth_error_round_row (integer_cols : list nat) (r : list Q) (c : nat) :
  nth_error (round_row integer_cols r) c =
  option_map (fun v => if is_col integer_cols c
                       then inject_Z (astype_int (np_round v)) else v)
             (nth_error r c).
Proof. unfold round_row. rewrite nth_error_map_indexed. reflexivity. Qed.

Lemma length_round_row (integer_cols : list nat) (r : list Q) :
  List.length (round_row integer_cols r) = List.length r.
Proof.
  unfold round_row. rewrite length_map, length_combine, length_seq.
  apply Nat.min_id.
Qed.

Lemma is_col_In (cols : list nat) (c : nat) : is_col cols c = true <-> In c cols.
Proof.
  unfold is_col. rewrite existsb_exists. split.
  - intros [x [Hx He]]. apply Nat.eqb_eq in He. subst x. exact Hx.
  - intros H. exists c. split; [exact H | apply Nat.eqb_refl].
Qed.




Lemma astype_int_fits (z : Z) : fits_int64 z -> astype_int z = z.
Proof.
  unfold fits_int64, astype_int, int64_min, int64_max. intros [H1 H2].
  destruct (Z.leb_spec (- 2 ^ 63) z); [|lia].
  destruct (Z.leb_spec z (2 ^ 63 - 1)); [reflexivity | lia].
Qed.


Lemma astype_int_range (z : Z) : fits_int64 (astype_int z).
Proof.
  unfold fits_int64, astype_int, int64_min, int64_max.
  destruct (Z.leb_spec (- 2 ^ 63) z); [|simpl; lia].
  destruct (Z.leb_spec z (2 ^ 63 - 1)); simpl; lia.
Qed.

Lemma astype_int_idempotent (z : Z) : astype_int (astype_int z) = astype_int z.
Proof. apply astype_int_fits. apply astype_int_range. Qed.






(* ================================================================== *)
(** * The rows of the excluded groups *)

Lemma column_stack_Return (X : ndarray) (y : list label) (df : list row) :
  column_stack X y = Return df -> df = combine (values X) y.
Proof.
  unfold column_stack.
  destruct (Nat.eqb (List.length (values X)) (List.length y)); [|discriminate].
  intros [= <-]. reflexivity.
Qed.









(* ================================================================== *)
(** * The ratio of a group *)

Lemma py_int_floor (x : Q) : (0 <= x)%Q -> py_int x = Qfloor x.
Proof.
  intros H. unfold py_int. apply Qle_bool_iff in H. rewrite H. reflexivity.
Qed.


(** When every label of the ratio has a column in the weight table and the
    weight of some minority label is [nan], the comprehension raises. *)
Lemma group_ratio_nan (initial_ratio : list (label * Z)) (majority_label : label)
  (weight : list (label * option Q)) :
  (forall l n, In (l, n) initial_ratio -> l <> majority_label ->
               dict_get weight l <> None) ->
  (exists l n, In (l, n) initial_ratio /\ l <> majority_label /\
               dict_get weight l = Some None) ->
  group_ratio initial_ratio majority_label weight
  = Raise (ValueError "cannot convert float NaN to integer").
Proof.
  induction initial_ratio as [|[l n] rest IH]; simpl; intros Hcol [l0 [n0 H]].
  - destruct H as [[] _].
  - destruct H as (Hin & Hne0 & Hnan).
    destruct (Z.eqb_spec l majority_label) as [->|Hne]; simpl.
    + rewrite IH; [reflexivity | |].
      * intros l' n' Hin'. apply (Hcol l' n'). right. exact Hin'.
      * exists l0, n0. destruct Hin as [[= -> ->]|Hin]; [congruence|].
        repeat split; assumption.
    + destruct (dict_get weight l) as [[w|]|] eqn:Eg; simpl.
      * rewrite IH; [reflexivity | |].
        -- intros l' n' Hin'. apply (Hcol l' n'). right. exact Hin'.
        -- exists l0, n0. destruct Hin as [[= -> ->]|Hin]; [congruence|].
           repeat split; assumption.
      * reflexivity.
      * exfalso. apply (Hcol l n); [left; reflexivity | exact Hne | exact Eg].
Qed.

(** One turn of the loop: the ratio of the group is computed first; if that
    raises, [self] is untouched and the strategy is not called; otherwise the
    strategy runs on the object whose [ratio_] is the ratio of the group. *)
Lemma oversample_groups_cons
  (strategy : ndarray -> list label -> M (ndarray * list label))
  (m : nat) (cols : list nat) (df : list row) (initial_ratio : list (label * Z))
  (majority_label : label) (group_values : key)
  (weight : list (label * option Q))
  (rest : list (key * list (label * option Q)))
  (resampled : list (list Q) * list label) (self : ExtendedBaseOverSampler) :
  oversample_groups strategy m cols df initial_ratio majority_label
    ((group_values, weight) :: rest) resampled self
  = match group_ratio initial_ratio majority_label weight with
    | Raise e => (Raise e, self)
    | Return ratio =>
        let df_group := merge cols df [group_values] in
        match strategy
                (mk_ndarray (List.length (numeric_columns m cols))
                   (map (fun r => drop_columns cols (fst r)) df_group))
                (map snd df_group) (set_ratio_ ratio self) with
        | (Raise e, self') => (Raise e, self')
        | (Return res, self') =>
            if Nat.eqb (List.length (values (fst res))) 0
            then (Raise (ValueError
                           "cannot reshape array of size 0 into shape (0,newaxis)"),
                  self')
            else if negb (Nat.eqb (shape1 (fst res))
                            (List.length (numeric_columns m cols)))
            then (Raise (ValueError
                           "Shape of passed values does not match the columns"),
                  self')
            else oversample_groups strategy m cols df initial_ratio
                   majority_label rest
                   (fst resampled
                      ++ map (reattach m cols group_values) (values (fst res)),
                    snd resampled ++ snd res) self'
        end
    end.
Proof.
  cbn [oversample_groups]. unfold bind, lift, modify, raise.
  destruct (group_ratio initial_ratio majority_label weight) as [ratio|e];
    [|reflexivity].
  cbv zeta.
  destruct (strategy _ _ (set_ratio_ ratio self)) as [[res|e] self'];
    [|reflexivity].
  destruct (Nat.eqb (List.length (values (fst res))) 0); [reflexivity|].
  destruct (negb (Nat.eqb (shape1 (fst res))
                    (List.length (numeric_columns m cols)))); reflexivity.
Qed.

(** C2 on the example with three classes. The only included group (value 0)
    has no sample of class 2; its weight for class 2 is [nan], and the ratio
    of the group is never built: [int(4 * nan)] raises a [ValueError] out of
    [_sample], before the strategy is called, where the specification has the
    label keep its current count without an error. *)
Theorem undefined_weight_raises :
  (exists w : Q,
     (w == 1)%Q /\
     group_weights [1%nat] (combine (values X_mixed) y_three_classes)
       (ratio_ sampler_three_classes) 0 1 None
     = [([0%Q], [(1, Some w); (2, None)])] /\
     group_ratio (ratio_ sampler_three_classes) 0 [(1, Some w); (2, None)]
     = Raise (ValueError "cannot convert float NaN to integer")) /\
  forall strategy,
    _sample strategy X_mixed y_three_classes sampler_three_classes
    = (Raise (ValueError "cannot convert float NaN to integer"),
       set_n_overasmpled_groups_ 1 (seed_random_state sampler_three_classes)).
Proof.
  split.
  - exists (12 # 12)%Q. split; [reflexivity|].
    split; [vm_compute; reflexivity | reflexivity].
  - intros strategy. vm_compute. reflexivity.
Qed.

(* ================================================================== *)
(** * The configured ratio across a call *)

(** X1. A call with [categorical_cols] set that returns leaves [ratio_] as it
    found it, whatever the strategy did to it in between. *)
Lemma ratio_restored_on_success
  (strategy : ndarray -> list label -> M (ndarray * list label))
  (X : ndarray) (y : list label) (self self' : ExtendedBaseOverSampler)
  (cc : list Z) (res : ndarray * list label) :
  categorical_cols self = Some cc ->
  _sample strategy X y self = (Return res, self') ->
  ratio_ self' = ratio_ self.
Proof.
  intros Hcc Hs.
  destruct (sample_grouped_inv _ _ _ _ _ _ _ Hcc Hs)
    as (ic & resampled & _ & Hr & _).
  destruct (resample_groups_inv _ _ _ _ _ _ _ Hr)
    as (df & maj & acc & self1 & _ & _ & _ & -> & _).
  reflexivity.
Qed.

(** C1 on the example with two included groups. The strategy refuses the
    first group (4 rows, fewer than 5); the exception leaves [_sample] with
    [ratio_] still set to the ratio of that group, [{0: 0, 1: 2}], and not to
    the configured [{0: 0, 1: 4}]. *)
Theorem ratio_not_restored_when_strategy_raises :
  ratio_ sampler_both_included = [(0, 0); (1, 4)] /\
  fst (_sample (minimum_size_strategy 5) X_both_included y_both_included
         sampler_both_included)
  = Raise (StrategyError "Expected n_neighbors <= n_samples") /\
  ratio_ (snd (_sample (minimum_size_strategy 5) X_both_included y_both_included
                 sampler_both_included))
  = [(0, 0); (1, 2)].
Proof. vm_compute. repeat split. Qed.

(* ================================================================== *)
(** * The theorems at work on the examples *)

Lemma sample_without_categorical_cols_witness :
  categorical_cols sampler_unchecked = None /\
  _sample identity_strategy X_mixed y_mixed sampler_unchecked
  = identity_strategy X_mixed y_mixed (seed_random_state sampler_unchecked).
Proof.
  split; [reflexivity|].
  apply (sample_without_categorical_cols identity_strategy X_mixed y_mixed
           sampler_unchecked).
  reflexivity.
Defined.

Lemma unset_categorical_cols_skips_validation_witness :
  categorical_cols sampler_unchecked = None /\
  (imbalance_ratio_threshold sampler_unchecked <= 0)%Q /\
  range_issuperset (shape1 X_mixed) [5; -1] = false /\
  _sample identity_strategy X_mixed y_mixed sampler_unchecked
  = (Return (X_mixed, y_mixed), seed_random_state sampler_unchecked).
Proof.
  split; [reflexivity|]. split; [discriminate|]. split; [reflexivity|].
  apply (proj2 (unset_categorical_cols_skips_validation identity_strategy
                  X_mixed y_mixed sampler_unchecked eq_refl)).
  reflexivity.
Defined.

Lemma invalid_configuration_raises_witness :
  categorical_cols sampler_overlap = Some [1] /\
  (exists ic c, integer_cols sampler_overlap = Some ic /\ In c ic /\ In c [1]) /\
  exists msg,
    forall (strategy : ndarray -> list label -> M (ndarray * list label))
           (X' : ndarray) (y' : list label),
      shape1 X' = shape1 X_mixed ->
      _sample strategy X' y' sampler_overlap
      = (Raise (ValueError msg), seed_random_state sampler_overlap).
Proof.
  assert (H : exists ic c, integer_cols sampler_overlap = Some ic /\
                           In c ic /\ In c [1]).
  { exists [0; 1], 1. split; [reflexivity|]. split; [right|]; left; reflexivity. }
  split; [reflexivity|]. split; [exact H|].
  exact (invalid_configuration_raises X_mixed sampler_overlap [1] eq_refl
           (or_introl H)).
Defined.

Lemma weights_sum_to_one_witness :
  1 <> 0 /\
  (Qsum
     (defined_weights
        (label_weights
           (imbalance_ratios_of
              (classes_stats_frame [1%nat]
                 (combine (values X_both_included) y_both_included) 0 5 None))
           1)) == 1)%Q.
Proof.
  split; [discriminate|].
  refine (proj1 (weights_sum_to_one [1%nat]
                   (combine (values X_both_included) y_both_included)
                   0 5%Q None 1 _ _)).
  - discriminate.
  - eexists. split.
    + vm_compute. left. reflexivity.
    + vm_compute. do 3 right. left. reflexivity.
Defined.



(* ================================================================== *)
(** * More on the validation *)

Lemma range_issuperset_iff (m : nat) (l : list Z) :
  range_issuperset m l = true <-> forall c, In c l -> 0 <= c < Z.of_nat m.
Proof.
  unfold range_issuperset. rewrite forallb_forall. split; intros H c Hc.
  - specialize (H c Hc). apply andb_true_iff in H. destruct H as [H1 H2].
    apply Z.leb_le in H1. apply Z.ltb_lt in H2. lia.
  - specialize (H c Hc). apply andb_true_iff. split.
    + apply Z.leb_le. lia.
    + apply Z.ltb_lt. lia.
Qed.

Lemma isdisjoint_iff (a b : list Z) :
  isdisjoint a b = true <-> forall c, In c a -> ~ In c b.
Proof.
  unfold isdisjoint. rewrite negb_true_iff. split.
  - intros H c Ha Hb.
    assert (existsb (fun c => existsb (Z.eqb c) b) a = true) as E; [|congruence].
    apply existsb_exists. exists c. split; [exact Ha|].
    apply existsb_exists. exists c. split; [exact Hb | apply Z.eqb_refl].
  - intros H. destruct (existsb _ a) eqn:E; [|reflexivity].
    apply existsb_exists in E. destruct E as [c [Ha E]].
    apply existsb_exists in E. destruct E as [c' [Hb E]].
    apply Z.eqb_eq in E. subst c'. exfalso. exact (H c Ha Hb).
Qed.

Lemma check_cols_good (name kind : string) (m : nat) (l : list Z) :
  l <> [] -> range_issuperset m l = true ->
  check_cols name kind (Some l) m = Return l.
Proof.
  intros Hne Hr. unfold check_cols. destruct l as [|c l]; [congruence|].
  cbn [List.length Nat.eqb orb]. rewrite Hr. reflexivity.
Qed.

Lemma check_cols_bad (name kind : string) (m : nat) (cols : option (list Z)) :
  bad_cols m cols ->
  check_cols name kind cols m = Raise (ValueError (cols_message name m)).
Proof.
  intros Hbad. unfold check_cols. destruct cols as [l|]; [|reflexivity].
  destruct l as [|c l]; [reflexivity|].
  cbn [List.length Nat.eqb orb].
  destruct (range_issuperset m (c :: l)) eqn:Hr; [|reflexivity].
  exfalso. destruct Hbad as [Hnil|[c' [Hin Hout]]]; [discriminate|].
  apply Hout. exact (proj1 (range_issuperset_iff _ _) Hr c' Hin).
Qed.

Lemma good_cols_check (name kind : string) (m : nat) (cols : option (list Z)) :
  good_cols m cols ->
  exists l, cols = Some l /\ check_cols name kind cols m = Return l.
Proof.
  intros [l (-> & Hne & Hr)]. exists l. split; [reflexivity|].
  apply check_cols_good; [exact Hne|]. apply range_issuperset_iff. exact Hr.
Qed.

(** X2. The checks pass exactly when both column parameters are non-empty
    lists of indices in [range(X.shape[1])] without a common index and the
    threshold is positive; they then hand back the two lists. *)
Theorem validate_Return_iff (self : ExtendedBaseOverSampler) (m : nat)
  (ic cc : list Z) :
  validate self m = Return (ic, cc) <->
  integer_cols self = Some ic /\ categorical_cols self = Some cc /\
  ic <> [] /\ cc <> [] /\
  (forall c, In c ic -> 0 <= c < Z.of_nat m) /\
  (forall c, In c cc -> 0 <= c < Z.of_nat m) /\
  (forall c, In c ic -> ~ In c cc) /\
  (0 < imbalance_ratio_threshold self)%Q.
Proof.
  split.
  - unfold validate.
    destruct (check_cols_cases "integer_cols" "integer" (integer_cols self) m)
      as [[l1 (E1 & -> & N1 & R1)]|[msg ->]]; simpl; [|discriminate].
    destruct (check_cols_cases "categorical_cols" "categorical"
                (categorical_cols self) m)
      as [[l2 (E2 & -> & N2 & R2)]|[msg ->]]; simpl; [|discriminate].
    destruct (isdisjoint l1 l2) eqn:Ed; simpl; [|discriminate].
    destruct (Qle_bool (imbalance_ratio_threshold self) 0) eqn:Et; [discriminate|].
    intros [= <- <-].
    split; [exact E1|]. split; [exact E2|].
    split; [exact N1|]. split; [exact N2|].
    split; [apply range_issuperset_iff; exact R1|].
    split; [apply range_issuperset_iff; exact R2|].
    split; [apply isdisjoint_iff; exact Ed|].
    apply Qnot_le_lt. intro Hle. apply Qle_bool_iff in Hle. congruence.
  - intros (E1 & E2 & N1 & N2 & R1 & R2 & Hd & Ht). unfold validate.
    rewrite E1, E2.
    rewrite (check_cols_good _ _ _ _ N1 (proj2 (range_issuperset_iff _ _) R1)).
    rewrite (check_cols_good _ _ _ _ N2 (proj2 (range_issuperset_iff _ _) R2)).
    simpl. rewrite (proj2 (isdisjoint_iff _ _) Hd). simpl.
    destruct (Qle_bool (imbalance_ratio_threshold self) 0) eqn:Et; [|reflexivity].
    apply Qle_bool_iff in Et. exfalso. exact (Qlt_not_le _ _ Ht Et).
Qed.

Lemma sample_validation_error
  (strategy : ndarray -> list label -> M (ndarray * list label))
  (X : ndarray) (y : list label) (self : ExtendedBaseOverSampler)
  (cc : list Z) (e : exn) :
  categorical_cols self = Some cc ->
  validate self (shape1 X) = Raise e ->
  _sample strategy X y self = (Raise e, seed_random_state self).
Proof.
  intros Hcc Hv. unfold _sample, bind, modify, get_self, lift. simpl.
  rewrite Hcc.
  change (validate (seed_random_state self) (shape1 X))
    with (validate self (shape1 X)).
  rewrite Hv. reflexivity.
Qed.

(** X3. With [categorical_cols] set, the first check that fails decides the
    error, in the order of the source. A rejected [integer_cols] ([None],
    empty, or with an index out of range) gives the message about
    [integer_cols] whatever the other parameters are; the message of the inner
    [raise] is never seen, the bare [except] replaces it. Then comes
    [categorical_cols], then the common elements, then the threshold, whose
    message names [categorical_threshold]. *)
Theorem validation_first_failure
  (strategy : ndarray -> list label -> M (ndarray * list label))
  (X : ndarray) (y : list label) (self : ExtendedBaseOverSampler)
  (cc : list Z) :
  categorical_cols self = Some cc ->
  let m := shape1 X in
  let raises := fun msg : string =>
    _sample strategy X y self = (Raise (ValueError msg), seed_random_state self) in
  (bad_cols m (integer_cols self) -> raises (cols_message "integer_cols" m)) /\
  (good_cols m (integer_cols self) -> bad_cols m (Some cc) ->
   raises (cols_message "categorical_cols" m)) /\
  (good_cols m (integer_cols self) -> good_cols m (Some cc) ->
   (exists ic c, integer_cols self = Some ic /\ In c ic /\ In c cc) ->
   raises "Parameters `integer_cols` and `categorical_cols` should not have common elements."%string) /\
  (good_cols m (integer_cols self) -> good_cols m (Some cc) ->
   (forall ic c, integer_cols self = Some ic -> In c ic -> ~ In c cc) ->
   (imbalance_ratio_threshold self <= 0)%Q ->
   raises "Parameter `categorical_threshold` should be a positive number."%string).
Proof.
  intros Hcc m raises. subst raises m. cbv beta.
  split; [|split; [|split]].
  - intros Hbad. apply (sample_validation_error _ _ _ _ _ _ Hcc).
    unfold validate. rewrite (check_cols_bad _ _ _ _ Hbad). reflexivity.
  - intros Hgood Hbad. apply (sample_validation_error _ _ _ _ _ _ Hcc).
    unfold validate.
    destruct (good_cols_check "integer_cols" "integer" _ _ Hgood) as [l [_ ->]].
    rewrite Hcc, (check_cols_bad _ _ _ _ Hbad). reflexivity.
  - intros Hgood Hgood' (ic & c & Hic & H1 & H2).
    apply (sample_validation_error _ _ _ _ _ _ Hcc). unfold validate.
    destruct (good_cols_check "integer_cols" "integer" _ _ Hgood) as [l [El ->]].
    rewrite Hcc.
    destruct (good_cols_check "categorical_cols" "categorical" _ _ Hgood')
      as [l' [El' ->]].
    injection El' as <-. rewrite El in Hic. injection Hic as <-. simpl.
    rewrite (isdisjoint_false _ _ _ H1 H2). reflexivity.
  - intros Hgood Hgood' Hdis Hthr.
    apply (sample_validation_error _ _ _ _ _ _ Hcc). unfold validate.
    destruct (good_cols_check "integer_cols" "integer" _ _ Hgood) as [l [El ->]].
    rewrite Hcc.
    destruct (good_cols_check "categorical_cols" "categorical" _ _ Hgood')
      as [l' [El' ->]].
    injection El' as <-. simpl.
    rewrite (proj2 (isdisjoint_iff l cc) (fun c => Hdis l c El)). simpl.
    apply Qle_bool_iff in Hthr. rewrite Hthr. reflexivity.
Qed.

(* ================================================================== *)
(** * Running the grouped path *)

Lemma sample_grouped_run
  (strategy : ndarray -> list label -> M (ndarray * list label))
  (X : ndarray) (y : list label) (self : ExtendedBaseOverSampler)
  (ic cc : list Z) :
  validate self (shape1 X) = Return (ic, cc) ->
  _sample strategy X y self =
  match resample_groups strategy (map Z.to_nat cc) X y (seed_random_state self) with
  | (Return r, self') =>
      (Return (mk_ndarray (shape1 X)
                 (map (round_row (map Z.to_nat ic)) (fst r)), snd r), self')
  | (Raise e, self') => (Raise e, self')
  end.
Proof.
  intros Hv. pose proof (validate_Return _ _ _ _ Hv) as (_ & Hcc & _).
  unfold _sample, bind, modify, get_self, lift, ret. simpl. rewrite Hcc.
  change (validate (seed_random_state self) (shape1 X))
    with (validate self (shape1 X)).
  rewrite Hv. cbn [fst snd].
  destruct (resample_groups strategy (map Z.to_nat cc) X y
              (seed_random_state self)) as [[r|e] self']; reflexivity.
Qed.

Lemma first_repeated_None (seen l : list nat) :
  first_repeated seen l = None <->
  NoDup l /\ forall c, In c l -> ~ In c seen.
Proof.
  revert seen. induction l as [|c l IH]; intros seen; simpl.
  - split; [intros _; split; [constructor | intros c []] | reflexivity].
  - destruct (is_col seen c) eqn:E.
    + split; [discriminate|]. intros [_ H]. exfalso.
      apply is_col_In in E. exact (H c (or_introl eq_refl) E).
    + rewrite IH. split.
      * intros [Hnd H]. split.
        -- constructor; [|exact Hnd]. intros Hc. apply (H c Hc). left. reflexivity.
        -- intros c' [<-|Hc'] Hs.
           ++ apply is_col_In in Hs. congruence.
           ++ apply (H c' Hc'). right. exact Hs.
      * intros [Hnd H]. inversion Hnd as [|c0 l0 Hnot Hnd']; subst. split.
        -- exact Hnd'.
        -- intros c' Hc' [<-|Hs]; [exact (Hnot Hc')|].
           exact (H c' (or_intror Hc') Hs).
Qed.

(** [groupby] accepts the grouping columns exactly when none is repeated. *)
Lemma repeated_column_None (cols : list nat) :
  repeated_column cols = None <-> NoDup cols.
Proof.
  unfold repeated_column. rewrite first_repeated_None. split.
  - intros [H _]. apply NoDup_rev in H. rewrite rev_involutive in H. exact H.
  - intros H. split; [apply NoDup_rev; exact H | intros c _ []].
Qed.

Lemma resample_groups_run
  (strategy : ndarray -> list label -> M (ndarray * list label))
  (cols : list nat) (X : ndarray) (y : list label)
  (self : ExtendedBaseOverSampler) (df : list row) (majority_label : label) :
  column_stack X y = Return df ->
  majority_label_of (ratio_ self) = Return majority_label ->
  NoDup cols ->
  df <> [] ->
  resample_groups strategy cols X y self =
  match oversample_groups strategy (shape1 X) cols df (ratio_ self) majority_label
          (group_weights cols df (ratio_ self) majority_label
             (imbalance_ratio_threshold self) (k_neighbors self))
          ([], [])
          (set_n_overasmpled_groups_
             (List.length
                (included_groups_of
                   (classes_stats_frame cols df majority_label
                      (imbalance_ratio_threshold self) (k_neighbors self))))
             self) with
  | (Return acc, self1) =>
      (Return
         (fst acc ++ map fst (df_excluded_of cols df majority_label
                                (imbalance_ratio_threshold self) (k_neighbors self)),
          snd acc ++ map snd (df_excluded_of cols df majority_label
                                (imbalance_ratio_threshold self) (k_neighbors self))),
       set_ratio_ (ratio_ self) self1)
  | (Raise e, self1) => (Raise e, self1)
  end.
Proof.
  intros Hdf Hmaj Hnd Hne.
  unfold resample_groups, bind, get_self, lift, modify, ret.
  rewrite Hdf, Hmaj, (proj2 (repeated_column_None cols) Hnd).
  destruct df as [|r0 df0] eqn:Edf; [contradiction|].
  cbn [List.length Nat.eqb]. rewrite <- Edf.
  fold (group_weights cols df (ratio_ self) majority_label
          (imbalance_ratio_threshold self) (k_neighbors self)).
  fold (df_excluded_of cols df majority_label
          (imbalance_ratio_threshold self) (k_neighbors self)).
  match goal with
  | |- context [oversample_groups ?a ?b ?c ?d ?r ?f ?g ?h ?i] =>
      destruct (oversample_groups a b c d r f g h i) as [[acc|err] self1]
  end; reflexivity.
Qed.

(** The two failures of pandas on the way, on the sampler of the examples:
    a data set without rows, and a categorical column named twice. *)
Example sample_without_rows_raises :
  _sample identity_strategy (mk_ndarray 2 []) [] sampler_two_classes
  = (Raise (IndexError "single positional indexer is out-of-bounds"),
     set_n_overasmpled_groups_ 0 (seed_random_state sampler_two_classes)).
Proof. reflexivity. Qed.

Example sample_repeated_column_raises :
  _sample identity_strategy X_mixed y_mixed
    (mk_sampler None (Some [0]) (Some [1; 1]) 1%Q None [(0, 0); (1, 1)] None None)
  = (Raise (ValueError "cannot insert 1, already exists"),
     seed_random_state
       (mk_sampler None (Some [0]) (Some [1; 1]) 1%Q None [(0, 0); (1, 1)]
          None None)).
Proof. vm_compute. reflexivity. Qed.

Lemma column_stack_same_length (X : ndarray) (y : list label) :
  List.length (values X) = List.length y ->
  column_stack X y = Return (combine (values X) y).
Proof.
  intros H. unfold column_stack. rewrite H, Nat.eqb_refl. reflexivity.
Qed.

Lemma map_fst_combine_same_length {A B : Type} (l : list A) (l' : list B) :
  List.length l = List.length l' -> map fst (combine l l') = l.
Proof.
  revert l'. induction l as [|a l IH]; intros [|b l'] H; simpl in *;
    try discriminate; [reflexivity|].
  f_equal. apply IH. lia.
Qed.

Lemma map_snd_combine_same_length {A B : Type} (l : list A) (l' : list B) :
  List.length l = List.length l' -> map snd (combine l l') = l'.
Proof.
  revert l'. induction l as [|a l IH]; intros [|b l'] H; simpl in *;
    try discriminate; [reflexivity|].
  f_equal. apply IH. lia.
Qed.

Lemma majority_label_of_none (ratio : list (label * Z)) :
  (forall l n, In (l, n) ratio -> n <> 0) ->
  majority_label_of ratio = Raise (IndexError "list index out of range").
Proof.
  intros H. unfold majority_label_of.
  destruct (filter (fun ln => Z.eqb (snd ln) 0) ratio) as [|[l n] rest] eqn:E;
    [reflexivity|].
  assert (Hin : In (l, n) (filter (fun ln => Z.eqb (snd ln) 0) ratio))
    by (rewrite E; left; reflexivity).
  apply filter_In in Hin. destruct Hin as [Hin Hz]. simpl in Hz.
  apply Z.eqb_eq in Hz. exfalso. exact (H l n Hin Hz).
Qed.

(** X4. With valid parameters and as many labels as rows, a ratio in which no
    label has the entry 0 makes the call fail with the [IndexError] of
    [[...][0]] on an empty list: there is no majority label to pick. The
    strategy is not called and [ratio_] is not touched. *)
Theorem no_majority_label_raises
  (strategy : ndarray -> list label -> M (ndarray * list label))
  (X : ndarray) (y : list label) (self : ExtendedBaseOverSampler)
  (ic cc : list Z) :
  validate self (shape1 X) = Return (ic, cc) ->
  List.length (values X) = List.length y ->
  (forall l n, In (l, n) (ratio_ self) -> n <> 0) ->
  _sample strategy X y self
  = (Raise (IndexError "list index out of range"), seed_random_state self).
Proof.
  intros Hv Hlen Hnz. rewrite (sample_grouped_run _ _ _ _ _ _ Hv).
  unfold resample_groups, bind, get_self, lift.
  rewrite (column_stack_same_length _ _ Hlen).
  change (ratio_ (seed_random_state self)) with (ratio_ self).
  rewrite (majority_label_of_none _ Hnz). reflexivity.
Qed.

Lemma filter_nil_all_false {A : Type} (f : A -> bool) (l : list A) :
  filter f l = [] -> filter (fun a => negb (f a)) l = l.
Proof.
  induction l as [|a l IH]; simpl; [reflexivity|].
  destruct (f a); simpl; [discriminate|]. intros H. f_equal. exact (IH H).
Qed.

Lemma NoDup_map_to_nat (l : list Z) :
  NoDup l -> (forall c, In c l -> 0 <= c) -> NoDup (map Z.to_nat l).
Proof.
  induction 1 as [|z l Hz Hnd IH]; intros Hpos; simpl; constructor.
  - intros H. apply in_map_iff in H. destruct H as [z' [Heq Hin]].
    pose proof (Hpos z (or_introl eq_refl)). pose proof (Hpos z' (or_intror Hin)).
    assert (z' = z) by lia. subst z'. exact (Hz Hin).
  - apply IH. intros c Hc. apply Hpos. right. exact Hc.
Qed.

Lemma df_excluded_all (cols : list nat) (df : list row) (majority_label : label)
  (thr : Q) (k : option Z) :
  included_groups_of (classes_stats_frame cols df majority_label thr k) = [] ->
  Permutation (df_excluded_of cols df majority_label thr k) df.
Proof.
  intros H. unfold df_excluded_of.
  rewrite excluded_groups_filter. rewrite included_groups_filter in H.
  rewrite (filter_nil_all_false _ _ H).
  apply merge_all. intros r Hr. apply group_keys_cover. exact Hr.
Qed.

(** X5. When no group is included the strategy is not called at all: on a
    data set with at least one row and with [categorical_cols] free of
    repetition, the call returns the rows of [X] with the integer columns
    rounded and cast, side by side with their labels, in the order in which
    [pd.merge] hands them back (a rearrangement of the input);
    [n_overasmpled_groups_] is 0 and [ratio_] is rewritten with its own
    value. *)
Theorem no_included_group_passthrough
  (strategy : ndarray -> list label -> M (ndarray * list label))
  (X : ndarray) (y : list label) (self : ExtendedBaseOverSampler)
  (ic cc : list Z) (majority_label : label) :
  validate self (shape1 X) = Return (ic, cc) ->
  List.length (values X) = List.length y ->
  values X <> [] ->
  NoDup cc ->
  majority_label_of (ratio_ self) = Return majority_label ->
  included_groups_of
    (classes_stats_frame (map Z.to_nat cc) (combine (values X) y) majority_label
       (imbalance_ratio_threshold self) (k_neighbors self)) = [] ->
  exists E,
    Permutation E (combine (values X) y) /\
    _sample strategy X y self
    = (Return (mk_ndarray (shape1 X)
                 (map (fun r => round_row (map Z.to_nat ic) (fst r)) E),
               map snd E),
       set_ratio_ (ratio_ self)
         (set_n_overasmpled_groups_ 0 (seed_random_state self))).
Proof.
  intros Hv Hlen HX Hnd Hmaj Hinc.
  exists (df_excluded_of (map Z.to_nat cc) (combine (values X) y) majority_label
            (imbalance_ratio_threshold self) (k_neighbors self)).
  split; [exact (df_excluded_all _ _ _ _ _ Hinc)|].
  rewrite (sample_grouped_run _ _ _ _ _ _ Hv).
  pose proof (validate_Return _ _ _ _ Hv) as (_ & _ & _ & Hrcc & _).
  rewrite range_issuperset_iff in Hrcc.
  assert (Hcols : NoDup (map Z.to_nat cc)).
  { apply NoDup_map_to_nat; [exact Hnd|]. intros c Hc. apply Hrcc. exact Hc. }
  assert (Hdf : combine (values X) y <> []).
  { destruct (values X) as [|x xs]; [contradiction|].
    destruct y as [|l ls]; discriminate. }
  rewrite (resample_groups_run _ _ _ _ (seed_random_state self) _ majority_label
             (column_stack_same_length _ _ Hlen) Hmaj Hcols Hdf).
  change (ratio_ (seed_random_state self)) with (ratio_ self).
  change (imbalance_ratio_threshold (seed_random_state self))
    with (imbalance_ratio_threshold self).
  change (k_neighbors (seed_random_state self)) with (k_neighbors self).
  unfold group_weights. rewrite Hinc. cbn [combine List.length oversample_groups].
  unfold ret. cbn [fst snd app]. rewrite map_map. reflexivity.
Qed.

(* ================================================================== *)
(** * More on [_generate_classes_stats] *)

Lemma n_occ_perm (l : label) (y y' : list label) :
  Permutation y y' -> n_occ l y = n_occ l y'.
Proof.
  intros H. unfold n_occ. f_equal.
  exact (proj1 (Permutation_count_occ Z.eq_dec y y') H l).
Qed.

Lemma classes_stats_of_perm (y y' : list label) (majority_label : label)
  (st : label * (Q * Z)) :
  Permutation y y' ->
  In st (classes_stats_of (Counter y) majority_label) ->
  In st (classes_stats_of (Counter y') majority_label).
Proof.
  intros Hp Hin. apply In_classes_stats_of in Hin.
  destruct Hin as (Hne & Hy & Hn & Hir). apply In_classes_stats_of.
  rewrite <- (n_occ_perm (fst st) y y' Hp).
  rewrite <- (n_occ_perm majority_label y y' Hp).
  split; [exact Hne|]. split; [exact (Permutation_in _ Hp Hy)|].
  split; assumption.
Qed.

Lemma existsb_same_members {A : Type} (f : A -> bool) (l l' : list A) :
  (forall a, In a l <-> In a l') -> existsb f l = existsb f l'.
Proof.
  intros H. destruct (existsb f l) eqn:E, (existsb f l') eqn:E';
    try reflexivity.
  - apply existsb_exists in E. destruct E as [a [Ha Hf]].
    assert (existsb f l' = true)
      by (apply existsb_exists; exists a; split; [apply H; exact Ha | exact Hf]).
    congruence.
  - apply existsb_exists in E'. destruct E' as [a [Ha Hf]].
    assert (existsb f l = true)
      by (apply existsb_exists; exists a; split; [apply H; exact Ha | exact Hf]).
    congruence.
Qed.

(** X6. The statistics of a group depend on its labels only through their
    counts: reordering the labels changes neither the inclusion decision nor
    the modified ratio looked up for any label (the dictionary may list its
    keys in another order). *)
Theorem classes_stats_depend_on_counts (y y' : list label)
  (majority_label : label) (thr : Q) (k : option Z) :
  Permutation y y' ->
  fst (_generate_classes_stats y majority_label thr k)
  = fst (_generate_classes_stats y' majority_label thr k) /\
  forall l,
    dict_get (snd (_generate_classes_stats y majority_label thr k)) l
    = dict_get (snd (_generate_classes_stats y' majority_label thr k)) l.
Proof.
  intros Hp. split.
  - unfold _generate_classes_stats. cbn [fst].
    apply existsb_same_members. intros st. split.
    + apply classes_stats_of_perm. exact Hp.
    + apply classes_stats_of_perm. symmetry. exact Hp.
  - intros l. rewrite !dict_get_modified_ratios. unfold modified_ratio.
    rewrite (n_occ_perm l y y' Hp), (n_occ_perm majority_label y y' Hp).
    reflexivity.
Qed.

Lemma include_test_monotone (thr thr' : Q) (k k' : option Z)
  (st : label * (Q * Z)) :
  (thr <= thr')%Q ->
  (forall kk', k' = Some kk' -> exists kk, k = Some kk /\ kk' <= kk) ->
  include_test thr k st = true -> include_test thr' k' st = true.
Proof.
  intros Hthr Hk. unfold include_test.
  assert (Hir : Qltb (fst (snd st)) thr = true ->
                Qltb (fst (snd st)) thr' = true).
  { rewrite !Qltb_iff. intros H. exact (Qlt_le_trans _ _ _ H Hthr). }
  destruct k' as [kk'|].
  - destruct (Hk kk' eq_refl) as [kk [-> Hle]].
    rewrite !andb_true_iff, !Z.ltb_lt. intros [H1 H2].
    split; [exact (Hir H1) | lia].
  - destruct k as [kk|]; [|exact Hir].
    rewrite andb_true_iff. intros [H1 _]. exact (Hir H1).
Qed.

(** X7. Raising the threshold, lowering the neighbour count or dropping the
    neighbour count altogether never turns an included group into an excluded
    one. *)
Theorem include_group_monotone (y : list label) (majority_label : label)
  (thr thr' : Q) (k k' : option Z) :
  (thr <= thr')%Q ->
  (forall kk', k' = Some kk' -> exists kk, k = Some kk /\ kk' <= kk) ->
  fst (_generate_classes_stats y majority_label thr k) = true ->
  fst (_generate_classes_stats y majority_label thr' k') = true.
Proof.
  intros Hthr Hk. unfold _generate_classes_stats. cbn [fst].
  rewrite !existsb_exists. intros [st [Hin Ht]]. exists st.
  split; [exact Hin|]. exact (include_test_monotone _ _ _ _ _ Hthr Hk Ht).
Qed.

Lemma filter_none {A : Type} (f : A -> bool) (l : list A) :
  (forall a, In a l -> f a = false) -> filter f l = [].
Proof.
  induction l as [|a l IH]; simpl; intros H; [reflexivity|].
  rewrite (H a (or_introl eq_refl)). apply IH.
  intros b Hb. apply H. right. exact Hb.
Qed.

(** X8. A group with no sample of a minority class (all its labels are the
    majority label, or it has no row) is never included, and its dictionary
    of modified ratios is empty. *)
Theorem group_without_minority_excluded (y : list label)
  (majority_label : label) (thr : Q) (k : option Z) :
  (forall l, In l y -> l = majority_label) ->
  _generate_classes_stats y majority_label thr k = (false, []).
Proof.
  intros H. unfold _generate_classes_stats, classes_stats_of, modified_ratios_of.
  rewrite (filter_none (fun ln => negb (Z.eqb (fst ln) majority_label))
             (Counter y)); [reflexivity|].
  intros [l n] Hin. apply In_Counter in Hin. destruct Hin as [Hin _].
  simpl. rewrite (H l Hin), Z.eqb_refl. reflexivity.
Qed.

(** X9. A group with no sample of the majority class has imbalance ratio 0
    for each of its labels ([counter[majority_label]] is 0 for the missing
    key). With a positive threshold it is included as soon as one of its
    labels passes the size test; without a neighbour count, as soon as it has
    a row. *)
Theorem group_without_majority_included (y : list label)
  (majority_label : label) (thr : Q) (k : option Z) :
  ~ In majority_label y -> (0 < thr)%Q ->
  (fst (_generate_classes_stats y majority_label thr k) = true <->
   exists l, In l y /\ forall kk, k = Some kk -> kk < n_occ l y).
Proof.
  intros Hmaj Hthr.
  assert (Hzero : n_occ majority_label y = 0).
  { pose proof (n_occ_nonneg majority_label y).
    destruct (Z.eq_dec (n_occ majority_label y) 0) as [E|E]; [exact E|].
    exfalso. apply Hmaj. apply n_occ_pos_iff. lia. }
  assert (Hir : forall n, Qltb (inject_Z 0 / inject_Z n) thr = true).
  { intros n. apply Qltb_iff. unfold Qdiv. rewrite Qmult_0_l. exact Hthr. }
  unfold _generate_classes_stats. cbn [fst]. rewrite existsb_exists. split.
  - intros [st [Hin Ht]]. apply In_classes_stats_of in Hin.
    destruct Hin as (_ & Hy & Hn & _). exists (fst st). split; [exact Hy|].
    intros kk ->. unfold include_test in Ht.
    apply andb_true_iff in Ht. destruct Ht as [_ Ht].
    apply Z.ltb_lt in Ht. rewrite Hn in Ht. exact Ht.
  - intros [l [Hy Hk]].
    exists (l, ((inject_Z (n_occ majority_label y) / inject_Z (n_occ l y))%Q,
                n_occ l y)).
    split.
    + apply In_classes_stats_of. cbn [fst snd].
      split; [intros ->; exact (Hmaj Hy)|]. split; [exact Hy|].
      split; reflexivity.
    + unfold include_test. cbn [fst snd]. rewrite Hzero, Hir.
      destruct k as [kk|]; [|reflexivity].
      simpl. apply Z.ltb_lt. apply Hk. reflexivity.
Qed.

(* ================================================================== *)
(** * More on rounding, dropping and re-attaching columns *)

Lemma nth_as_nth_error {A : Type} (l : list A) (c : nat) (d : A) :
  nth c l d = match nth_error l c with Some v => v | None => d end.
Proof.
  revert c. induction l as [|a l IH]; intros [|c]; simpl; try reflexivity.
  apply IH.
Qed.

(** X10. Rounding the integer columns is idempotent: a row that comes out of
    [_sample] is left as it is by a second rounding. *)
Theorem round_row_idempotent (integer_cols : list nat) (r : list Q) :
  round_row integer_cols (round_row integer_cols r) = round_row integer_cols r.
Proof.
  apply nth_error_ext. intros c. rewrite !nth_error_round_row.
  destruct (nth_error r c) as [v|]; [|reflexivity]. simpl.
  destruct (is_col integer_cols c); [|reflexivity].
  rewrite (np_round_whole (inject_Z (astype_int (np_round v)))
             (astype_int (np_round v))) by reflexivity.
  rewrite astype_int_idempotent. reflexivity.
Qed.

Lemma round_row_other_columns (integer_cols cols : list nat) (r : list Q) :
  (forall c, In c cols -> ~ In c integer_cols) ->
  row_key cols (round_row integer_cols r) = row_key cols r.
Proof.
  intros Hdis. unfold row_key. apply map_ext_in. intros c Hc.
  rewrite !nth_as_nth_error, nth_error_round_row.
  destruct (nth_error r c) as [v|]; [|reflexivity]. simpl.
  destruct (is_col integer_cols c) eqn:E; [|reflexivity].
  apply is_col_In in E. exfalso. exact (Hdis c Hc E).
Qed.

Lemma map_nth_seq {A B : Type} (g : A -> B) (l : list A) (d : A) :
  map (fun i => g (nth i l d)) (seq 0 (List.length l)) = map g l.
Proof.
  induction l as [|a l IH]; [reflexivity|].
  cbn [List.length seq map nth]. f_equal.
  rewrite <- seq_shift, map_map. exact IH.
Qed.

Lemma drop_columns_aux (p : nat -> bool) (r : list Q) (s : nat) :
  map snd (filter (fun ix => p (fst ix)) (combine (seq s (List.length r)) r))
  = map (fun c => nth (c - s) r 0%Q) (filter p (seq s (List.length r))).
Proof.
  revert s. induction r as [|a r IH]; intros s; [reflexivity|].
  cbn [List.length seq combine filter fst].
  assert (Htail :
            map snd (filter (fun ix => p (fst ix))
                            (combine (seq (S s) (List.length r)) r))
            = map (fun c => nth (c - s) (a :: r) 0%Q)
                  (filter p (seq (S s) (List.length r)))).
  { rewrite IH. apply map_ext_in. intros c Hc.
    apply filter_In in Hc. destruct Hc as [Hc _]. apply in_seq in Hc.
    replace (c - s)%nat with (S (c - S s)) by lia. reflexivity. }
  destruct (p s); cbn [map snd]; [|exact Htail].
  rewrite Nat.sub_diag. cbn [nth]. f_equal. exact Htail.
Qed.

Lemma drop_columns_numeric (cols : list nat) (r : list Q) :
  drop_columns cols r
  = map (fun c => nth c r 0%Q) (numeric_columns (List.length r) cols).
Proof.
  unfold drop_columns, numeric_columns.
  rewrite (drop_columns_aux (fun c => negb (is_col cols c)) r 0).
  apply map_ext. intros c. rewrite Nat.sub_0_r. reflexivity.
Qed.

Lemma nth_index_of_map {B : Type} (f : nat -> B) (c : nat) (l : list nat) (d : B) :
  In c l -> nth (index_of c l) (map f l) d = f c.
Proof.
  induction l as [|c' l IH]; simpl; intros Hin; [destruct Hin|].
  destruct (Nat.eqb_spec c' c) as [->|Hne]; [reflexivity|].
  destruct Hin as [Heq|Hin]; [congruence|]. exact (IH Hin).
Qed.

Lemma In_all_columns (m : nat) (cols : list nat) (c : nat) :
  (c < m)%nat -> In c (numeric_columns m cols ++ cols).
Proof.
  intros Hc. apply in_or_app. destruct (is_col cols c) eqn:E.
  - right. apply is_col_In. exact E.
  - left. unfold numeric_columns. apply filter_In. split.
    + apply in_seq. lia.
    + rewrite E. reflexivity.
Qed.

(** X11. Dropping the categorical columns of a row and re-attaching the row's
    own categorical values gives the row back: [drop] and the reassembly of
    lines 166-172 are inverse to each other on the rows of a group (for a
    column list without repetition, the lists the model covers). *)
Theorem reattach_drop_columns (m : nat) (cols : list nat) (r : list Q) :
  NoDup cols -> List.length r = m ->
  reattach m cols (row_key cols r) (drop_columns cols r) = r.
Proof.
  intros _ Hlen. unfold reattach, row_key.
  rewrite drop_columns_numeric, Hlen, <- map_app.
  rewrite (map_ext_in _ (fun c => nth c r 0%Q)).
  - rewrite <- Hlen, (map_nth_seq (fun v => v) r 0%Q). apply map_id.
  - intros c Hc. apply in_seq in Hc.
    apply (nth_index_of_map (fun c => nth c r 0%Q)). apply In_all_columns. lia.
Qed.

(* ================================================================== *)
(** * What the loop appends *)

Section LoopInvariants.

Variable strategy : ndarray -> list label -> M (ndarray * list label).
Variables (m : nat) (cols : list nat) (df : list row).
Variables (initial_ratio : list (label * Z)) (majority_label : label).

(** A property [P] of the appended rows: it holds for every row that is
    re-attached to the values of one of the groups, provided the rows that the
    strategy returns satisfy [R]. *)
Lemma oversample_groups_rows (R P : list Q -> Prop) :
  (forall gv s res s',
     strategy
       (mk_ndarray (List.length (numeric_columns m cols))
          (map (fun r => drop_columns cols (fst r)) (merge cols df [gv])))
       (map snd (merge cols df [gv])) s = (Return res, s') ->
     shape1 (fst res) = List.length (numeric_columns m cols) ->
     Forall R (values (fst res))) ->
  forall groups acc acc' s s',
    (forall gv x, In gv (map fst groups) -> R x -> P (reattach m cols gv x)) ->
    Forall P (fst acc) ->
    oversample_groups strategy m cols df initial_ratio majority_label
      groups acc s = (Return acc', s') ->
    Forall P (fst acc').
Proof.
  intros HR. induction groups as [|[gv w] rest IH]; intros acc acc' s s' HP Hacc.
  - cbn [oversample_groups]. unfold ret. intros [= <- _]. exact Hacc.
  - rewrite oversample_groups_cons.
    destruct (group_ratio initial_ratio majority_label w) as [ratio|e];
      [|discriminate].
    cbv zeta.
    destruct (strategy _ _ (set_ratio_ ratio s)) as [[res|e] s1] eqn:Es;
      [|discriminate].
    destruct (Nat.eqb (List.length (values (fst res))) 0); [discriminate|].
    destruct (Nat.eqb (shape1 (fst res))
                (List.length (numeric_columns m cols))) eqn:Eshape;
      cbn [negb]; [|discriminate].
    apply Nat.eqb_eq in Eshape. apply IH.
    + intros gv' x Hgv. apply HP. right. exact Hgv.
    + cbn [fst]. apply Forall_app. split; [exact Hacc|].
      apply Forall_map. apply (Forall_impl _ (fun x Hx => HP gv x (or_introl eq_refl) Hx)).
      exact (HR _ _ _ _ Es Eshape).
Qed.


End LoopInvariants.

Lemma length_reattach (m : nat) (cols : list nat) (gv : key) (x : list Q) :
  List.length (reattach m cols gv x) = m.
Proof. unfold reattach. rewrite length_map, length_seq. reflexivity. Qed.

(** X12. When every row of [X] has [X.shape[1]] entries, so has every row of
    the result, whatever the strategy returns: the re-attached rows are read
    in the order of the columns [0 .. m-1]. *)
Theorem output_rows_have_input_width
  (strategy : ndarray -> list label -> M (ndarray * list label))
  (X : ndarray) (y : list label) (self self' : ExtendedBaseOverSampler)
  (cc : list Z) (res : ndarray * list label) :
  categorical_cols self = Some cc ->
  proper_array X ->
  _sample strategy X y self = (Return res, self') ->
  shape1 (fst res) = shape1 X /\ proper_array (fst res).
Proof.
  intros Hcc Hwf Hs.
  destruct (sample_grouped_inv _ _ _ _ _ _ _ Hcc Hs)
    as (ic & resampled & _ & Hr & ->).
  destruct (resample_groups_inv _ _ _ _ _ _ _ Hr)
    as (df & maj & acc & self1 & Hdf & _ & Hloop & _ & ->).
  apply column_stack_Return in Hdf. subst df. unfold proper_array in *.
  cbn [fst snd shape1 values].
  split; [reflexivity|].
  apply Forall_map. apply Forall_app. split.
  - assert (Hrows : Forall (fun r => List.length r = shape1 X) (fst acc)).
    { apply (oversample_groups_rows strategy (shape1 X) _ _ _ _
               (fun _ => True) (fun r => List.length r = shape1 X))
        with (4 := Hloop).
      - intros. apply Forall_forall. intros; exact I.
      - intros gv x _ _. apply length_reattach.
      - constructor. }
    apply (Forall_impl _ (fun r (Hlen : List.length r = shape1 X) =>
                            eq_trans (length_round_row _ r) Hlen)).
    exact Hrows.
  - apply Forall_map. apply Forall_forall. intros r Hin.
    rewrite length_round_row. unfold df_excluded_of in Hin.
    apply In_merge in Hin. destruct Hin as [Hin _]. destruct r as [x l].
    apply in_combine_l in Hin. cbn [fst].
    exact (proj1 (Forall_forall _ _) Hwf x Hin).
Qed.

(* ================================================================== *)
(** * The categorical values of the result *)

Lemma In_add_key (ks : list key) (k k' : key) :
  In k' (add_key ks k) -> k' = k \/ In k' ks.
Proof.
  unfold add_key. destruct (existsb (key_eqb k) ks).
  - intros H. right. exact H.
  - intros H. apply (Permutation_in _ (insert_key_perm k ks)) in H.
    destruct H as [<-|H]; [left; reflexivity | right; exact H].
Qed.

Lemma In_fold_add_key (l acc : list key) (k : key) :
  In k (fold_left add_key l acc) -> In k acc \/ In k l.
Proof.
  revert acc. induction l as [|k0 l IH]; simpl; intros acc H.
  - left. exact H.
  - destruct (IH _ H) as [H'|H']; [|right; right; exact H'].
    destruct (In_add_key _ _ _ H') as [->|H'']; [right; left; reflexivity|].
    left. exact H''.
Qed.

Lemma group_keys_origin (cols : list nat) (df : list row) (gv : key) :
  In gv (group_keys cols df) -> exists r, In r df /\ gv = key_of cols r.
Proof.
  intros H. apply In_fold_add_key in H. destruct H as [[]|H].
  apply in_map_iff in H. destruct H as [r [<- Hr]]. exists r. split; auto.
Qed.

Lemma nth_map_seq {B : Type} (g : nat -> B) (m c : nat) (d : B) :
  (c < m)%nat -> nth c (map g (seq 0 m)) d = g c.
Proof.
  intros Hc. rewrite (nth_indep _ d (g 0%nat))
    by (rewrite length_map, length_seq; exact Hc).
  rewrite map_nth, seq_nth by exact Hc. reflexivity.
Qed.

Lemma index_of_app_r (c : nat) (l l' : list nat) :
  ~ In c l -> index_of c (l ++ l') = (List.length l + index_of c l')%nat.
Proof.
  induction l as [|c' l IH]; simpl; intros Hnot; [reflexivity|].
  destruct (Nat.eqb_spec c' c) as [->|Hne]; [exfalso; apply Hnot; left; reflexivity|].
  rewrite IH; [reflexivity|]. intros H. apply Hnot. right. exact H.
Qed.

Lemma map_index_of_nth {B : Type} (cols : list nat) (gv : list B) (d : B) :
  NoDup cols -> List.length gv = List.length cols ->
  map (fun c => nth (index_of c cols) gv d) cols = gv.
Proof.
  revert gv. induction cols as [|c cols IH]; intros [|g gv] Hnd Hlen;
    simpl in Hlen; try discriminate; [reflexivity|].
  inversion Hnd as [|? ? Hc Hnd']; subst.
  cbn [map index_of]. rewrite Nat.eqb_refl. cbn [nth]. f_equal.
  assert (Hlen' : List.length gv = List.length cols) by lia.
  etransitivity; [|exact (IH gv Hnd' Hlen')].
  apply map_ext_in. intros c' Hc'.
  destruct (Nat.eqb_spec c c') as [->|Hne]; [contradiction|]. reflexivity.
Qed.

(** A re-attached row carries the values of its group in the categorical
    columns. *)
Lemma row_key_reattach (m : nat) (cols : list nat) (gv : key) (x : list Q) :
  NoDup cols -> (forall c, In c cols -> (c < m)%nat) ->
  List.length x = List.length (numeric_columns m cols) ->
  List.length gv = List.length cols ->
  row_key cols (reattach m cols gv x) = gv.
Proof.
  intros Hnd Hrange Hx Hgv. unfold row_key, reattach.
  etransitivity; [|exact (map_index_of_nth cols gv 0%Q Hnd Hgv)].
  apply map_ext_in. intros c Hc.
  rewrite nth_map_seq by (apply Hrange; exact Hc).
  rewrite index_of_app_r.
  - rewrite <- Hx. apply app_nth2_plus.
  - unfold numeric_columns. intros H. apply filter_In in H.
    destruct H as [_ H]. rewrite (proj2 (is_col_In cols c) Hc) in H.
    discriminate.
Qed.

(** X13. No new combination of categorical values is created. With a proper
    array [X], a strategy that returns proper arrays and [categorical_cols]
    without repetition, the categorical values of every row of the result are
    those of a row of the input: a synthetic row carries the values of its
    group, and the rounding of the integer columns does not reach a
    categorical column. *)
Theorem output_keys_from_input
  (strategy : ndarray -> list label -> M (ndarray * list label))
  (X : ndarray) (y : list label) (self self' : ExtendedBaseOverSampler)
  (cc : list Z) (res : ndarray * list label) :
  returns_arrays strategy -> proper_array X ->
  categorical_cols self = Some cc -> NoDup cc ->
  _sample strategy X y self = (Return res, self') ->
  forall r, In r (values (fst res)) ->
    exists r0, In r0 (combine (values X) y) /\
               row_key (map Z.to_nat cc) r = key_of (map Z.to_nat cc) r0.
Proof.
  intros Hwf HX Hcc Hnd Hs.
  destruct (sample_grouped_inv _ _ _ _ _ _ _ Hcc Hs)
    as (ic & resampled & Hv & Hr & ->).
  apply validate_Return in Hv.
  destruct Hv as (_ & _ & Hric & Hrcc & Hdis & _).
  rewrite range_issuperset_iff in Hric, Hrcc. rewrite isdisjoint_iff in Hdis.
  destruct (resample_groups_inv _ _ _ _ _ _ _ Hr)
    as (df & maj & acc & self1 & Hdf & _ & Hloop & _ & ->).
  apply column_stack_Return in Hdf. subst df. cbn [fst snd values].
  set (cols := map Z.to_nat cc) in *. set (df := combine (values X) y) in *.
  assert (Hcols_nd : NoDup cols).
  { apply NoDup_map_to_nat; [exact Hnd|]. intros c Hc. apply Hrcc. exact Hc. }
  assert (Hcols_range : forall c, In c cols -> (c < shape1 X)%nat).
  { intros c Hc. apply in_map_iff in Hc. destruct Hc as [z [<- Hz]].
    specialize (Hrcc z Hz). lia. }
  assert (Hcols_dis : forall c, In c cols -> ~ In c (map Z.to_nat ic)).
  { intros c Hc Hc'. apply in_map_iff in Hc. destruct Hc as [z [<- Hz]].
    apply in_map_iff in Hc'. destruct Hc' as [z' [Heq Hz']].
    pose proof (Hrcc z Hz). pose proof (Hric z' Hz').
    assert (z' = z) by lia. subst z'. exact (Hdis z Hz' Hz). }
  assert (Hgroup : forall gv,
            proper_array
              (mk_ndarray (List.length (numeric_columns (shape1 X) cols))
                 (map (fun r => drop_columns cols (fst r)) (merge cols df [gv])))).
  { intros gv. unfold proper_array. cbn [values shape1].
    apply Forall_map. apply Forall_forall. intros [x l] Hin.
    apply In_merge in Hin. destruct Hin as [Hin _].
    apply in_combine_l in Hin. cbn [fst].
    rewrite drop_columns_numeric, length_map.
    rewrite (proj1 (Forall_forall _ _) HX x Hin). reflexivity. }
  assert (Hrows :
            Forall (fun x => exists r0, In r0 df /\ row_key cols x = key_of cols r0)
                   (fst acc)).
  { apply (oversample_groups_rows strategy (shape1 X) cols df _ _
             (fun x => List.length x = List.length (numeric_columns (shape1 X) cols))
             (fun x => exists r0, In r0 df /\ row_key cols x = key_of cols r0))
      with (4 := Hloop).
    - intros gv s res s' Hres Hshape. rewrite <- Hshape.
      exact (Hwf _ _ _ _ _ (Hgroup gv) Hres).
    - intros gv x Hgv Hx. unfold group_weights in Hgv.
      apply in_map_iff in Hgv. destruct Hgv as [[gv' w] [<- Hgw]].
      apply in_combine_l in Hgw. rewrite included_groups_filter in Hgw.
      apply filter_In in Hgw. destruct Hgw as [Hgk _]. cbn [fst].
      destruct (group_keys_origin _ _ _ Hgk) as [r0 [Hr0 Heq]].
      exists r0. split; [exact Hr0|]. rewrite <- Heq.
      apply row_key_reattach; try assumption.
      rewrite Heq. unfold key_of. apply length_map.
    - constructor. }
  intros r Hin. apply in_map_iff in Hin. destruct Hin as [x [<- Hx]].
  rewrite (round_row_other_columns _ _ _ Hcols_dis).
  apply in_app_or in Hx. destruct Hx as [Hx|Hx].
  - exact (proj1 (Forall_forall _ _) Hrows x Hx).
  - apply in_map_iff in Hx. destruct Hx as [r0 [<- Hr0]].
    exists r0. split; [|reflexivity].
    unfold df_excluded_of in Hr0. apply In_merge in Hr0. exact (proj1 Hr0).
Qed.

(* ================================================================== *)
(** * The weight rows of the included groups *)








(* ================================================================== *)
(** * The bounds of the weights *)

Lemma nansum_nonneg (col : list (option Q)) :
  Forall (fun o => forall w, o = Some w -> (0 < w)%Q) col ->
  (0 <= nansum col)%Q.
Proof.
  induction 1 as [|o col Ho _ IH]; simpl; [lra|].
  destruct o as [w|]; [specialize (Ho w eq_refl); lra | exact IH].
Qed.

Lemma nansum_ge_member (col : list (option Q)) (r : Q) :
  Forall (fun o => forall w, o = Some w -> (0 < w)%Q) col ->
  In (Some r) col -> (r <= nansum col)%Q.
Proof.
  induction 1 as [|o col Ho Hall IH]; simpl; intros Hin; [destruct Hin|].
  pose proof (nansum_nonneg col Hall) as Hnn.
  destruct Hin as [->|Hin].
  - lra.
  - specialize (IH Hin). destruct o as [w|]; [specialize (Ho w eq_refl); lra|].
    exact IH.
Qed.

Lemma frame_ratios_pos (cols : list nat) (df : list row) (majority_label : label)
  (thr : Q) (k : option Z) (l : label) :
  Forall (fun o => forall w, o = Some w -> (0 < w)%Q)
         (map (fun ratio => dict_get ratio l)
              (imbalance_ratios_of
                 (classes_stats_frame cols df majority_label thr k))).
Proof.
  rewrite imbalance_ratios_of_frame, map_map. apply Forall_map.
  apply Forall_forall. intros kg _ w. rewrite dict_get_modified_ratios.
  destruct (negb (Z.eqb l majority_label) && Z.ltb 0 (n_occ l (group_labels kg)));
    [|discriminate].
  intros [= <-]. apply modified_ratio_pos.
Qed.

Lemma frame_weight_bounds (cols : list nat) (df : list row)
  (majority_label : label) (thr : Q) (k : option Z) (l : label) (w : Q) :
  In (Some w)
     (label_weights
        (imbalance_ratios_of (classes_stats_frame cols df majority_label thr k))
        l) ->
  (0 < w <= 1)%Q.
Proof.
  unfold label_weights.
  set (col := map (fun ratio => dict_get ratio l)
                  (imbalance_ratios_of
                     (classes_stats_frame cols df majority_label thr k))).
  pose proof (frame_ratios_pos cols df majority_label thr k l) as Hpos.
  fold col in Hpos. intros Hin. apply in_map_iff in Hin.
  destruct Hin as [[r|] [Heq Hin]]; [|discriminate].
  simpl in Heq. injection Heq as <-.
  pose proof (proj1 (Forall_forall _ _) Hpos _ Hin r eq_refl) as Hr.
  pose proof (nansum_ge_member col r Hpos Hin) as Hle.
  assert (Hs : (0 < nansum col)%Q) by lra.
  split.
  - apply Qlt_shift_div_l; [exact Hs | lra].
  - apply Qle_shift_div_r; [exact Hs | lra].
Qed.

Lemma py_int_bounds (n : Z) (w : Q) :
  0 <= n -> (0 < w <= 1)%Q -> 0 <= py_int (inject_Z n * w) <= n.
Proof.
  intros Hn [Hw0 Hw1].
  assert (Hn' : (0 <= inject_Z n)%Q)
    by (change 0%Q with (inject_Z 0); rewrite <- Zle_Qle; exact Hn).
  assert (Hlo : (0 <= inject_Z n * w)%Q) by (apply Qmult_le_0_compat; lra).
  assert (Hhi : (inject_Z n * w <= inject_Z n)%Q).
  { rewrite <- (Qmult_1_r (inject_Z n)) at 2.
    rewrite (Qmult_comm (inject_Z n) w), (Qmult_comm (inject_Z n) 1).
    apply Qmult_le_compat_r; assumption. }
  rewrite (py_int_floor _ Hlo). split.
  - rewrite <- (Qfloor_Z 0). apply Qfloor_resp_le. exact Hlo.
  - rewrite <- (Qfloor_Z n) at 2. apply Qfloor_resp_le. exact Hhi.
Qed.

(** X15. Every weight of the table lies in (0, 1], so a group is never asked
    for more samples of a class than the whole data set: for a non-negative
    entry [n_samples] of the ratio, [int(n_samples * weight)] lies between 0
    and [n_samples]. *)
Theorem weights_between_zero_and_one (cols : list nat) (df : list row)
  (majority_label : label) (thr : Q) (k : option Z) (l : label) (w : Q) :
  In (Some w)
     (label_weights
        (imbalance_ratios_of (classes_stats_frame cols df majority_label thr k))
        l) ->
  (0 < w <= 1)%Q /\
  forall n_samples, 0 <= n_samples ->
    0 <= py_int (inject_Z n_samples * w) <= n_samples.
Proof.
  intros Hin. pose proof (frame_weight_bounds _ _ _ _ _ _ _ Hin) as Hw.
  split; [exact Hw|]. intros n Hn. exact (py_int_bounds n w Hn Hw).
Qed.

(* ================================================================== *)
(** * Rows and labels side by side *)

Lemma oversample_groups_aligned
  (strategy : ndarray -> list label -> M (ndarray * list label))
  (m : nat) (cols : list nat) (df : list row) (initial_ratio : list (label * Z))
  (majority_label : label) :
  returns_aligned strategy ->
  forall groups acc acc' s s',
    List.length (fst acc) = List.length (snd acc) ->
    oversample_groups strategy m cols df initial_ratio majority_label
      groups acc s = (Return acc', s') ->
    List.length (fst acc') = List.length (snd acc').
Proof.
  intros Hal. induction groups as [|[gv w] rest IH]; intros acc acc' s s' Hacc.
  - cbn [oversample_groups]. unfold ret. intros [= <- _]. exact Hacc.
  - rewrite oversample_groups_cons.
    destruct (group_ratio initial_ratio majority_label w) as [ratio|e];
      [|discriminate].
    cbv zeta.
    destruct (strategy _ _ (set_ratio_ ratio s)) as [[res|e] s1] eqn:Es;
      [|discriminate].
    destruct (Nat.eqb (List.length (values (fst res))) 0); [discriminate|].
    destruct (negb (Nat.eqb (shape1 (fst res))
                      (List.length (numeric_columns m cols)))); [discriminate|].
    apply IH. cbn [fst snd].
    assert (Hgroup : List.length (values (fst res)) = List.length (snd res)).
    { apply (Hal _ _ _ _ _) with (2 := Es). cbn [values].
      rewrite !length_map. reflexivity. }
    rewrite !length_app, length_map, Hacc, Hgroup. reflexivity.
Qed.

(** X17. With a strategy that returns as many labels as rows whenever it is
    given as many labels as rows, so does [_sample] on such an input, with or
    without categorical columns: the rows of the groups and their labels are
    appended in step, and the excluded rows come with their own labels. *)
Theorem output_rows_and_labels_aligned
  (strategy : ndarray -> list label -> M (ndarray * list label))
  (X : ndarray) (y : list label) (self self' : ExtendedBaseOverSampler)
  (res : ndarray * list label) :
  returns_aligned strategy ->
  List.length (values X) = List.length y ->
  _sample strategy X y self = (Return res, self') ->
  List.length (values (fst res)) = List.length (snd res).
Proof.
  intros Hal Hlen Hs. destruct (categorical_cols self) as [cc|] eqn:Hcc.
  - destruct (sample_grouped_inv _ _ _ _ _ _ _ Hcc Hs)
      as (ic & resampled & _ & Hr & ->).
    destruct (resample_groups_inv _ _ _ _ _ _ _ Hr)
      as (df & maj & acc & self1 & _ & _ & Hloop & _ & ->).
    cbn [fst snd values].
    rewrite length_map, !length_app, !length_map. f_equal.
    exact (oversample_groups_aligned _ _ _ _ _ _ Hal _ ([], []) _ _ _
             eq_refl Hloop).
  - unfold _sample, bind, modify, get_self in Hs. simpl in Hs.
    rewrite Hcc in Hs. exact (Hal _ _ _ _ _ Hlen Hs).
Qed.

(* ================================================================== *)
(** * What the strategy is given *)



(* ================================================================== *)
(** * The further properties at work on the examples *)

Lemma identity_strategy_returns_arrays : returns_arrays identity_strategy.
Proof.
  intros X y self res self' HX. unfold identity_strategy.
  intros [= <- _]. exact HX.
Qed.

Lemma sample_mixed_two_classes :
  _sample identity_strategy X_mixed y_mixed sampler_two_classes
  = (Return (X_mixed_resampled, y_mixed), sampler_two_classes_after).
Proof. vm_compute. reflexivity. Defined.

Lemma ratio_restored_on_success_witness :
  categorical_cols sampler_two_classes = Some [1] /\
  _sample identity_strategy X_mixed y_mixed sampler_two_classes
  = (Return (X_mixed_resampled, y_mixed), sampler_two_classes_after) /\
  ratio_ sampler_two_classes_after = ratio_ sampler_two_classes.
Proof.
  split; [reflexivity|]. split; [exact sample_mixed_two_classes|].
  exact (ratio_restored_on_success identity_strategy X_mixed y_mixed
           sampler_two_classes sampler_two_classes_after [1]
           (X_mixed_resampled, y_mixed) eq_refl sample_mixed_two_classes).
Defined.

Lemma validation_first_failure_witness :
  categorical_cols sampler_overlap = Some [1] /\
  good_cols 2 (integer_cols sampler_overlap) /\
  good_cols 2 (Some [1]) /\
  _sample identity_strategy X_mixed y_mixed sampler_overlap
  = (Raise (ValueError
              "Parameters `integer_cols` and `categorical_cols` should not have common elements."),
     seed_random_state sampler_overlap).
Proof.
  assert (G1 : good_cols 2 (integer_cols sampler_overlap)).
  { exists [0; 1]. split; [reflexivity|]. split; [discriminate|].
    intros c [<-|[<-|[]]]; simpl; lia. }
  assert (G2 : good_cols 2 (Some [1])).
  { exists [1]. split; [reflexivity|]. split; [discriminate|].
    intros c [<-|[]]; simpl; lia. }
  split; [reflexivity|]. split; [exact G1|]. split; [exact G2|].
  refine (proj1 (proj2 (proj2 (validation_first_failure identity_strategy
            X_mixed y_mixed sampler_overlap [1] eq_refl))) G1 G2 _).
  exists [0; 1], 1. split; [reflexivity|]. split; [right|]; left; reflexivity.
Defined.

Lemma no_majority_label_raises_witness :
  validate sampler_no_majority (shape1 X_mixed) = Return ([0], [1]) /\
  List.length (values X_mixed) = List.length y_mixed /\
  _sample identity_strategy X_mixed y_mixed sampler_no_majority
  = (Raise (IndexError "list index out of range"),
     seed_random_state sampler_no_majority).
Proof.
  split; [reflexivity|]. split; [reflexivity|].
  apply (no_majority_label_raises identity_strategy X_mixed y_mixed
           sampler_no_majority [0] [1]); [reflexivity | reflexivity |].
  intros l n [[= <- <-]|[[= <- <-]|[]]]; discriminate.
Defined.

Lemma no_included_group_passthrough_witness :
  validate sampler_strict (shape1 X_mixed) = Return ([0], [1]) /\
  included_groups_of
    (classes_stats_frame [1%nat] (combine (values X_mixed) y_mixed) 0
       (1 # 2) None) = [] /\
  exists E,
    Permutation E (combine (values X_mixed) y_mixed) /\
    _sample (minimum_size_strategy 100) X_mixed y_mixed sampler_strict
    = (Return (mk_ndarray 2 (map (fun r => round_row [0%nat] (fst r)) E),
               map snd E),
       set_ratio_ (ratio_ sampler_strict)
         (set_n_overasmpled_groups_ 0 (seed_random_state sampler_strict))).
Proof.
  split; [reflexivity|]. split; [vm_compute; reflexivity|].
  apply (no_included_group_passthrough (minimum_size_strategy 100) X_mixed
           y_mixed sampler_strict [0] [1] 0);
    [reflexivity | reflexivity | discriminate
     | constructor; [intros [] | constructor]
     | reflexivity | vm_compute; reflexivity].
Defined.

Lemma classes_stats_depend_on_counts_witness :
  Permutation [0; 0; 1; 1; 1; 2] [2; 1; 1; 1; 0; 0] /\
  fst (_generate_classes_stats [0; 0; 1; 1; 1; 2] 0 1 None)
  = fst (_generate_classes_stats [2; 1; 1; 1; 0; 0] 0 1 None) /\
  snd (_generate_classes_stats [0; 0; 1; 1; 1; 2] 0 1 None)
  <> snd (_generate_classes_stats [2; 1; 1; 1; 0; 0] 0 1 None).
Proof.
  assert (Hp : Permutation [0; 0; 1; 1; 1; 2] [2; 1; 1; 1; 0; 0])
    by (exact (Permutation_rev [0; 0; 1; 1; 1; 2])).
  split; [exact Hp|]. split.
  - exact (proj1 (classes_stats_depend_on_counts _ _ 0 1%Q None Hp)).
  - vm_compute. discriminate.
Defined.

Lemma include_group_monotone_witness :
  (1 <= 5)%Q /\
  fst (_generate_classes_stats [0; 0; 1; 1; 1; 2] 0 1 (Some 2)) = true /\
  fst (_generate_classes_stats [0; 0; 1; 1; 1; 2] 0 5 None) = true.
Proof.
  assert (H1 : (1 <= 5)%Q) by discriminate.
  assert (H2 : fst (_generate_classes_stats [0; 0; 1; 1; 1; 2] 0 1 (Some 2)) = true)
    by reflexivity.
  split; [exact H1|]. split; [exact H2|].
  apply (include_group_monotone [0; 0; 1; 1; 1; 2] 0 1%Q 5%Q (Some 2) None H1);
    [discriminate | exact H2].
Defined.

Lemma group_without_minority_excluded_witness :
  (forall l, In l [0; 0; 0] -> l = 0) /\
  _generate_classes_stats [0; 0; 0] 0 1 None = (false, []).
Proof.
  assert (H : forall l, In l [0; 0; 0] -> l = 0)
    by (intros l [<-|[<-|[<-|[]]]]; reflexivity).
  split; [exact H|].
  exact (group_without_minority_excluded [0; 0; 0] 0 1%Q None H).
Defined.

Lemma group_without_majority_included_witness :
  ~ In 0 [1; 2; 2] /\ (0 < 1 # 1000)%Q /\
  fst (_generate_classes_stats [1; 2; 2] 0 (1 # 1000) (Some 1)) = true.
Proof.
  assert (H : ~ In 0 [1; 2; 2])
    by (intros [E|[E|[E|[]]]]; discriminate E).
  assert (Ht : (0 < 1 # 1000)%Q) by reflexivity.
  split; [exact H|]. split; [exact Ht|].
  apply (proj2 (group_without_majority_included [1; 2; 2] 0 (1 # 1000)%Q
                  (Some 1) H Ht)).
  exists 2. split; [right; left; reflexivity|].
  intros kk [= <-]. reflexivity.
Defined.

Lemma reattach_drop_columns_witness :
  NoDup [1%nat] /\ List.length [9 # 2; 1; 7]%Q = 3%nat /\
  reattach 3 [1%nat] (row_key [1%nat] [9 # 2; 1; 7]%Q)
    (drop_columns [1%nat] [9 # 2; 1; 7]%Q)
  = [9 # 2; 1; 7]%Q.
Proof.
  assert (H : NoDup [1%nat]) by (constructor; [intros [] | constructor]).
  split; [exact H|]. split; [reflexivity|].
  exact (reattach_drop_columns 3 [1%nat] [9 # 2; 1; 7]%Q H eq_refl).
Defined.

Lemma output_rows_have_input_width_witness :
  categorical_cols sampler_two_classes = Some [1] /\
  proper_array X_mixed /\
  shape1 X_mixed_resampled = shape1 X_mixed /\
  proper_array X_mixed_resampled.
Proof.
  assert (H : proper_array X_mixed) by (repeat constructor).
  split; [reflexivity|]. split; [exact H|].
  exact (output_rows_have_input_width identity_strategy X_mixed y_mixed
           sampler_two_classes sampler_two_classes_after [1]
           (X_mixed_resampled, y_mixed) eq_refl H sample_mixed_two_classes).
Defined.

Lemma output_keys_from_input_witness :
  categorical_cols sampler_two_classes = Some [1] /\ NoDup [1] /\
  exists r0, In r0 (combine (values X_mixed) y_mixed) /\
             row_key (map Z.to_nat [1]) [4; 1]%Q = key_of (map Z.to_nat [1]) r0.
Proof.
  assert (H : NoDup [1]) by (constructor; [intros [] | constructor]).
  assert (HX : proper_array X_mixed) by (repeat constructor).
  split; [reflexivity|]. split; [exact H|].
  apply (output_keys_from_input identity_strategy X_mixed y_mixed
           sampler_two_classes sampler_two_classes_after [1]
           (X_mixed_resampled, y_mixed)
           identity_strategy_returns_arrays HX eq_refl H
           sample_mixed_two_classes).
  cbn. do 8 right. left. reflexivity.
Defined.


Lemma weights_between_zero_and_one_witness :
  In (Some (24 # 44)%Q)
     (label_weights
        (imbalance_ratios_of
           (classes_stats_frame [1%nat]
              (combine (values X_both_included) y_both_included) 0 5 None)) 1) /\
  (0 < 24 # 44 <= 1)%Q /\
  0 <= py_int (inject_Z 4 * (24 # 44)) <= 4.
Proof.
  assert (H : In (Some (24 # 44)%Q)
                (label_weights
                   (imbalance_ratios_of
                      (classes_stats_frame [1%nat]
                         (combine (values X_both_included) y_both_included)
                         0 5 None)) 1))
    by (vm_compute; left; reflexivity).
  split; [exact H|].
  destruct (weights_between_zero_and_one [1%nat]
              (combine (values X_both_included) y_both_included) 0 5%Q None 1
              (24 # 44)%Q H) as [Hw Hn].
  split; [exact Hw|]. apply Hn. discriminate.
Defined.

Lemma identity_strategy_returns_aligned : returns_aligned identity_strategy.
Proof.
  intros X y self res self' Hlen. unfold identity_strategy.
  intros [= <- _]. exact Hlen.
Qed.

Lemma output_rows_and_labels_aligned_witness :
  List.length (values X_mixed) = List.length y_mixed /\
  List.length (values X_mixed_resampled) = List.length y_mixed.
Proof.
  split; [reflexivity|].
  exact (output_rows_and_labels_aligned identity_strategy X_mixed y_mixed
           sampler_two_classes sampler_two_classes_after
           (X_mixed_resampled, y_mixed)
           identity_strategy_returns_aligned eq_refl sample_mixed_two_classes).
Defined.

